(** * custom-error-instance: a shallow embedding of [bin/error.js]

    The module exports one function, [CustomError], which builds error
    constructors arranged in a chain (leaf first, root last).  This file
    embeds the module in Rocq, function by function, and proves
    properties of the embedding.

    Modelling choices.
    - JavaScript data values are [value]: the primitives and references to
      plain data objects.  Objects live in a heap ([gmap loc object]) so
      that aliasing and in-place mutation ([Object.assign], an initializer
      of the user writing to the shared properties object) are visible.
      A plain object has the methods of [Object.prototype], so that it
      renders as [[object Object]] and answers [hasOwnProperty] by its own
      keys.  Functions are [func]; they occur as arguments of
      [CustomError] and in descriptors, not as property values.
    - Numbers are [number]: the integers (exact where a double is, that is
      up to 2^53 in magnitude), the two infinities and NaN.
    - An error instance is its prototype's descriptor chain together with
      its own data properties and, once [rootFactory] ran, the closure
      variables [code], [messageStr] and [stack] behind the [code] and
      [message] accessors.  The members the prototype supplies
      ([CustomError], [toString]) are read from the prototype: data keys
      are taken not to shadow them.
    - The host supplies what the module cannot see: what
      [(new Error()).stack.split('\n')] returns under the current
      [Error.stackTraceLimit] (or that it raises), and the behaviour of
      the initializers the user writes, which may mutate the instance, the
      heap and the stack trace limit, or raise.
    - Exceptions are explicit: every effectful function returns [Ok] with
      a value and the final state, or [Throw] with the raised value and the
      state at the time it was raised. *)

From stdpp Require Import gmap strings list fin_maps pretty.
From Stdlib Require Import ZArith.

Local Open Scope Z_scope.

(** ** Values *)

Definition loc := positive.

Inductive number := NaN | NegInf | Finite (z : Z) | PosInf.

Inductive value :=
| VUndefined
| VNull
| VBool (b : bool)
| VNum (n : number)
| VStr (s : string)
| VObj (l : loc).

(** The names [typeof] can answer for a data value or a function. *)
Inductive type_name := Tundefined | Tobject | Tboolean | Tnumber | Tstring | Tfunction.

Definition typeof_value (v : value) : type_name :=
  match v with
  | VUndefined => Tundefined
  | VNull => Tobject
  | VBool _ => Tboolean
  | VNum _ => Tnumber
  | VStr _ => Tstring
  | VObj _ => Tobject
  end.

(** ToBoolean. *)
Definition truthy (v : value) : bool :=
  match v with
  | VUndefined | VNull => false
  | VBool b => b
  | VNum NaN => false
  | VNum (Finite z) => negb (z =? 0)
  | VNum _ => true
  | VStr s => negb (String.eqb s "")
  | VObj _ => true
  end.

(** [a || b] *)
Definition js_or (a b : value) : value := if truthy a then a else b.

Definition isNaN (n : number) : bool :=
  match n with NaN => true | _ => false end.

(** [n >= 0] *)
Definition ge0 (n : number) : bool :=
  match n with
  | NaN | NegInf => false
  | Finite z => 0 <=? z
  | PosInf => true
  end.

(** [n + 2] *)
Definition add2 (n : number) : number :=
  match n with
  | Finite z => Finite (z + 2)
  | other => other
  end.

Definition number_to_string (n : number) : string :=
  match n with
  | NaN => "NaN"
  | NegInf => "-Infinity"
  | Finite z => pretty z
  | PosInf => "Infinity"
  end.

(** ToString, as string concatenation with [+] applies it.  A plain object
    renders through [Object.prototype.toString]. *)
Definition to_string (v : value) : string :=
  match v with
  | VUndefined => "undefined"
  | VNull => "null"
  | VBool true => "true"
  | VBool false => "false"
  | VNum n => number_to_string n
  | VStr s => s
  | VObj _ => "[object Object]"
  end.

Definition newline : string := String (Ascii.ascii_of_nat 10) EmptyString.

(** [lines.join('\n')] *)
Definition join_lines (lines : list string) : string := String.concat newline lines.

(** ** Functions and descriptors

    A function value is the host's [Error], a constructor returned by
    [CustomError], or any other function: the module's own [noop] and
    [rootFactory], or a function of the caller, known by an identifier.
    A constructor is represented by what [construct.prototype.CustomError]
    holds: its own descriptor and the descriptors of its ancestors, so that
    [descriptor.chain] is [d :: ancestors]. *)

Inductive plain_fn := Fn_noop | Fn_rootFactory | Fn_user (id : nat).

Inductive func :=
| Error
| Construct (d : item) (ancestors : list item)
| Plain (p : plain_fn)
with item :=
| Item (factory : plain_fn) (name : string) (parent : func) (properties : loc).

Definition factory (it : item) : plain_fn := let 'Item f _ _ _ := it in f.
Definition name (it : item) : string := let 'Item _ n _ _ := it in n.
Definition parent (it : item) : func := let 'Item _ _ p _ := it in p.
Definition properties (it : item) : loc := let 'Item _ _ _ p := it in p.

(** An argument of [CustomError]: a data value or a function. *)
Inductive arg := AVal (v : value) | AFun (f : func).

Definition typeof (a : arg) : type_name :=
  match a with
  | AVal v => typeof_value v
  | AFun _ => Tfunction
  end.

(** ** Instances *)

(** The variables [rootFactory] closes over for the accessors. *)
Record closure := Closure {
  code : value;
  messageStr : value;
  stack : list string
}.

Record fields := Fields {
  own : gmap string value;
  observable : option closure
}.

Record instance := Instance {
  chain : list item;
  this_fields : fields
}.

(** [Object.create(construct.prototype)]: what [new construct] starts from. *)
Definition Object_create (d : item) (ancestors : list item) : instance :=
  Instance (d :: ancestors) (Fields ∅ None).

(** [this.code]: the accessor when installed, else the own data property. *)
Definition get_code (this : instance) : value :=
  match observable (this_fields this) with
  | Some c => code c
  | None => default VUndefined (own (this_fields this) !! "code")
  end.

(** [this.message]: as [get_code]; [Error.prototype.message] is the empty string. *)
Definition get_message (this : instance) : value :=
  match observable (this_fields this) with
  | Some c => messageStr c
  | None => default (VStr "") (own (this_fields this) !! "message")
  end.

(** [construct.prototype.toString]; [None] is the TypeError raised when the
    chain has no last element. *)
Definition toString (this : instance) : option string :=
  match chain this !! (length (chain this) - 1)%nat with
  | None => None
  | Some root =>
    let result := name root in
    let result :=
      if truthy (get_code this) then result +:+ " " +:+ to_string (get_code this)
      else result in
    let result :=
      if truthy (get_message this) then result +:+ ": " +:+ to_string (get_message this)
      else result in
    Some result
  end.

(** ** State, exceptions and the monad *)

Abbreviation object := (gmap string value).

Record state := State {
  heap : gmap loc (gmap string value);
  stackTraceLimit : number
}.

Inductive exn :=
| TypeError
| Raised (this : instance)
| UserThrow (v : value).

Inductive result (A : Type) :=
| Ok (a : A) (st : state)
| Throw (e : exn) (st : state).
Arguments Ok {A} a st.
Arguments Throw {A} e st.

Definition M (A : Type) : Type := state -> result A.

Definition ret {A} (a : A) : M A := fun st => Ok a st.

Definition bind {A B} (m : M A) (k : A -> M B) : M B :=
  fun st =>
    match m st with
    | Ok a st' => k a st'
    | Throw e st' => Throw e st'
    end.

Definition throw {A} (e : exn) : M A := fun st => Throw e st.

Notation "x <- m ;; k" := (bind m (fun x => k))
  (at level 100, m at next level, right associativity).

Definition final_state {A} (r : result A) : state :=
  match r with
  | Ok _ st => st
  | Throw _ st => st
  end.

Definition get_limit : M number := fun st => Ok (stackTraceLimit st) st.

Definition set_limit (n : number) : M unit :=
  fun st => Ok tt (State (heap st) n).

Definition read_object (l : loc) : M object :=
  fun st => Ok (default ∅ (heap st !! l)) st.

(** An object literal: a fresh location. *)
Definition alloc (o : object) : M loc :=
  fun st =>
    let l := fresh (dom (heap st)) in
    Ok l (State (<[l := o]> (heap st)) (stackTraceLimit st)).

(** The own enumerable properties [Object.assign] copies from a source. *)
Definition own_enumerable (h : gmap loc (gmap string value)) (v : value) : object :=
  match v with
  | VObj l => default ∅ (h !! l)
  | VStr s =>
    list_to_map (imap (fun i c => (pretty i, VStr (String c EmptyString)))
                      (String.list_ascii_of_string s))
  | _ => ∅
  end.

(** One source folded into the target, in place. *)
Definition assign_one (target : loc) (st : state) (source : value) : state :=
  let src := own_enumerable (heap st) source in
  let tgt := default ∅ (heap st !! target) in
  State (<[target := src ∪ tgt]> (heap st)) (stackTraceLimit st).

(** [Object.assign(target, ...sources)] *)
Definition Object_assign (target : loc) (sources : list value) : M loc :=
  fun st => Ok target (foldl (assign_one target) st sources).

(** ** The host *)

Record host := Host {
  (** [(new Error()).stack.split('\n')] in the given state; [None] when it raises *)
  capture : state -> option (list string);
  (** a user-written initializer, called on [this] with the properties
      object and the configuration *)
  user_call : nat -> instance -> loc -> value -> state -> result fields
}.

(** ** The module *)

Section Module.

Variable h : host.

Definition is_noop (f : plain_fn) : bool :=
  match f with Fn_noop => true | _ => false end.

Definition is_string (v : value) : bool :=
  match typeof_value v with Tstring => true | _ => false end.

Definition is_object (v : value) : bool :=
  match typeof_value v with Tobject => true | _ => false end.

(** *** [rootFactory] (lines 141-209) *)

(** Lines 151-154: the depth the configuration object asks for, when it has
    an own [stackLength] that is a number, not NaN and at least 0. *)
Definition read_stackLength (configuration : object) (config_stackLength : number) : number :=
  match configuration !! "stackLength" with
  | Some (VNum n) => if negb (isNaN n) && ge0 n then n else config_stackLength
  | _ => config_stackLength
  end.

(** Lines 157-168: the body of the [forEach], on [(code, messageStr, this)]. *)
Definition copy_key (key : string) (v : value)
    (acc : value * value * gmap string value) : value * value * gmap string value :=
  let '(code, messageStr, this_own) := acc in
  if String.eqb key "code" then (js_or v VUndefined, messageStr, this_own)
  else if String.eqb key "message" then (code, js_or v (VStr ""), this_own)
  else (code, messageStr, <[key := v]> this_own).

(** [stack[0] = s]; an empty array grows to one element. *)
Definition set_first (s : string) (lines : list string) : list string :=
  match lines with
  | [] => [s]
  | _ :: rest => s :: rest
  end.

(** Lines 205-208, on an instance holding the accessors over [c]. *)
Definition updateStack (ch : list item) (this_own : gmap string value) (c : closure)
    : option instance :=
  match toString (Instance ch (Fields this_own (Some c))) with
  | None => None
  | Some s =>
    let stack := set_first s (stack c) in
    Some (Instance ch
            (Fields (<["stack" := VStr (join_lines stack)]> this_own)
                    (Some (Closure (code c) (messageStr c) stack))))
  end.

Definition lift_option {A} (o : option A) : M A :=
  match o with
  | Some a => ret a
  | None => throw TypeError
  end.

(** [(new Error()).stack.split('\n')] *)
Definition capture_stack : M (list string) :=
  fun st => lift_option (capture h st) st.

Definition rootFactory (this : instance) (properties : loc) (configuration : value)
    : M instance :=
  config_stackLength <- get_limit ;;
  originalStackLength <- get_limit ;;
  (* get configuration options *)
  configuration <-
    (if negb (truthy configuration) || negb (is_object configuration)
     then l <- alloc ∅ ;; ret (VObj l)
     else ret configuration) ;;
  configuration <- (fun st => Ok (own_enumerable (heap st) configuration) st) ;;
  let config_stackLength := read_stackLength configuration config_stackLength in
  (* copy properties onto this object *)
  props <- read_object properties ;;
  let '(code, messageStr, this_own) :=
    map_fold copy_key (VUndefined, VStr "", own (this_fields this)) props in
  (* generate the stack trace *)
  _ <- set_limit (add2 config_stackLength) ;;
  stack <- capture_stack ;;
  let stack := drop 3 stack in
  let stack := "" :: stack in
  _ <- set_limit originalStackLength ;;
  let this_own := <["stack" := VStr (join_lines stack)]> this_own in
  (* the accessors replace own data properties of the same names *)
  let this_own := delete "message" (delete "code" this_own) in
  lift_option (updateStack (chain this) this_own (Closure code messageStr stack)).

(** The setters installed at lines 178-200; without them the assignment
    writes an own data property. *)
Definition set_code (v : value) (this : instance) : option instance :=
  match observable (this_fields this) with
  | Some c =>
    updateStack (chain this) (own (this_fields this)) (Closure v (messageStr c) (stack c))
  | None =>
    Some (Instance (chain this) (Fields (<["code" := v]> (own (this_fields this))) None))
  end.

Definition set_message (v : value) (this : instance) : option instance :=
  match observable (this_fields this) with
  | Some c =>
    updateStack (chain this) (own (this_fields this)) (Closure (code c) v (stack c))
  | None =>
    Some (Instance (chain this) (Fields (<["message" := v]> (own (this_fields this))) None))
  end.

(** *** [construct] (lines 31-66) *)

(** [item.factory.call(this, props, configuration)] *)
Definition call_factory (f : plain_fn) (this : instance) (props : loc)
    (configuration : value) : M instance :=
  match f with
  | Fn_noop => ret this
  | Fn_rootFactory => rootFactory this props configuration
  | Fn_user id =>
    fun st =>
      match user_call h id this props configuration st with
      | Ok fs st' => Ok (Instance (chain this) fs) st'
      | Throw e st' => Throw e st'
      end
  end.

(** Lines 60-65.  The first argument is the loop variable plus one: the
    iteration for [i] runs when it is [S i], and the loop ends at [0]. *)
Fixpoint run_factories (n : nat) (this : instance) (props : loc) (configuration : value)
    : M instance :=
  match n with
  | O => ret this
  | S i =>
    match chain this !! i with
    | None => throw TypeError
    | Some item =>
      this <- (if negb (is_noop (factory item))
               then call_factory (factory item) this props configuration
               else ret this) ;;
      run_factories i this props configuration
    end
  end.

(** Lines 49-51: make sure that the message is an object. *)
Definition message_as_object (message : value) : M value :=
  message <-
    (if is_string message
     then l <- alloc {["message" := message]} ;; ret (VObj l)
     else ret message) ;;
  (if negb (truthy message)
   then l <- alloc ∅ ;; ret (VObj l)
   else ret message).

(** Lines 49-57: the properties object handed to the initializers. *)
Definition merge_properties (ch : list item) (message : value) : M loc :=
  message <- message_as_object message ;;
  let ar := (fun it => VObj (properties it)) <$> reverse ch in
  let ar := ar ++ [message] in
  target <- alloc ∅ ;;
  Object_assign target ar.

(** The body of [construct] once [this instanceof construct] holds.
    Lines 40-47 rename the constructor function; the name of a function
    object is not part of the state and is read nowhere in the module. *)
Definition construct_body (this : instance) (message configuration : value) : M instance :=
  props <- merge_properties (chain this) message ;;
  run_factories (length (chain this)) this props configuration.

(** [new construct(message, configuration)] *)
Definition new_construct (d : item) (ancestors : list item)
    (message configuration : value) : M instance :=
  construct_body (Object_create d ancestors) message configuration.


(** *** The argument classifier (lines 99-137) *)

Definition isFactoryArg (value : arg) : bool :=
  match value with
  | AFun (Plain _) => true
  | _ => false
  end.

Definition isNameArg (value : arg) : bool :=
  match typeof value with Tstring => true | _ => false end.

Definition isParentArg (value : arg) : bool :=
  match value with
  | AFun Error => true
  | AFun (Construct _ _) => true
  | _ => false
  end.

Definition isPropertiesArg (value : arg) : bool :=
  match value with
  | AVal v => truthy v && is_object v
  | AFun _ => false
  end.

(** [args[i]] *)
Definition arg_at (args : list arg) (i : nat) : arg :=
  default (AVal VUndefined) (args !! i).

(** One iteration of the loop of lines 107-117, on [(anti, found)]. *)
Definition scan_step (args : list arg) (filter : arg -> bool)
    (antiFilters : list (arg -> bool)) (acc : Z * Z) (i : nat) : Z * Z :=
  let '(anti, found) := acc in
  let val := arg_at args i in
  let anti :=
    if anti =? -1
    then foldl (fun (anti : Z) (antiFilter : arg -> bool) =>
                  if antiFilter val then Z.of_nat i else anti)
               anti antiFilters
    else anti in
  let found := if (found =? -1) && filter val then Z.of_nat i else found in
  (anti, found).

(** [throw new Err.order()].  [Err.order] is [None] while the module is
    being loaded, when reaching this line would raise a TypeError. *)
Definition throw_order {A} (Err_order : option func) : M A :=
  match Err_order with
  | Some (Construct d ancestors) =>
    this <- new_construct d ancestors VUndefined VUndefined ;;
    throw (Raised this)
  | _ => throw TypeError
  end.

Definition findArg (Err_order : option func) (args : list arg) (index : nat)
    (defaultValue : arg) (filter : arg -> bool) (antiFilters : list (arg -> bool))
    : M arg :=
  let len := if (index <? length args)%nat then index else length args in
  let '(anti, found) :=
    foldl (scan_step args filter antiFilters) (-1, -1) (seq 0 (S len)) in
  if negb (found =? -1) && negb (anti =? -1) && (anti <? found)
  then throw_order Err_order
  else ret (if negb (found =? -1) then arg_at args (Z.to_nat found) else defaultValue).

(** *** [CustomError] (lines 16-94) *)

(** [parent === Error ? 'Error' : parent.prototype.CustomError.name] *)
Definition default_name (parent : func) : option string :=
  match parent with
  | Error => Some "Error"
  | Construct d _ => Some (name d)
  | Plain _ => None
  end.

(** [isRoot ? [] : parent.prototype.CustomError.chain.slice(0)] *)
Definition inherited_chain (parent : func) : list item :=
  match parent with
  | Construct d ancestors => d :: ancestors
  | _ => []
  end.

Definition is_Error (f : func) : bool :=
  match f with Error => true | _ => false end.

(** The matches on the results of [findArg] only recover the type its filter
    (or its default) guarantees; the other branches are never taken. *)
Definition CustomError (Err_order : option func) (args : list arg) : M func :=
  (* normalize arguments *)
  parent <- findArg Err_order args 1 (AFun Error) isParentArg
              [isPropertiesArg; isFactoryArg] ;;
  empty <- alloc ∅ ;;
  properties <- findArg Err_order args 2 (AVal (VObj empty)) isPropertiesArg
                  [isFactoryArg] ;;
  factory <- findArg Err_order args 3 (AFun (Plain Fn_noop)) isFactoryArg nil ;;
  match parent, properties, factory with
  | AFun parent, AVal (VObj properties), AFun (Plain factory) =>
    inherited <- lift_option (default_name parent) ;;
    name <- findArg Err_order args 0 (AVal (VStr inherited)) isNameArg
              [isParentArg; isPropertiesArg; isFactoryArg] ;;
    match name with
    | AVal (VStr name) =>
      (* if this is the root and there is no factory then use the default root factory *)
      let isRoot := is_Error parent in
      let factory := if isRoot && is_noop factory then Fn_rootFactory else factory in
      (* add details about the custom error to the prototype *)
      let ancestors := if isRoot then [] else inherited_chain parent in
      ret (Construct (Item factory name parent properties) ancestors)
    | _ => throw TypeError
    end
  | _, _, _ => throw TypeError
  end.

(** Lines 3-4: what loading the module defines, [Err] and [Err.order]. *)
Definition module_init : M (func * func) :=
  Err <- CustomError None [AVal (VStr "CustomError")] ;;
  literal <- alloc {["message" := VStr "Arguments out of order.";
                     "code" := VStr "EOARG"]} ;;
  order <- CustomError None [AFun Err; AVal (VObj literal)] ;;
  ret (Err, order).

End Module.

(** ** Specification-level notions *)

(** The contents of the per-call message as an object: a string stands for
    [{message: string}], an object for itself, anything else has no
    properties to contribute. *)
Definition message_object (hp : gmap loc (gmap string value)) (message : value) : object :=
  match message with
  | VStr s => {["message" := VStr s]}
  | VObj l => default ∅ (hp !! l)
  | _ => ∅
  end.

(** The [defaultProperties] of the descriptors of a chain, leaf first. *)
Definition defaults (hp : gmap loc (gmap string value)) (ch : list item) : list object :=
  (fun it => default ∅ (hp !! properties it)) <$> ch.

(** Folding a source in: its keys win. *)
Definition fold_in (acc src : object) : object := src ∪ acc.

(** The merge as the specification words it: start empty, fold in the
    defaults from root to leaf, then the message. *)
Definition merged_properties (hp : gmap loc (gmap string value)) (ch : list item)
    (message : value) : object :=
  fold_in (foldl fold_in ∅ (reverse (defaults hp ch))) (message_object hp message).

(** The first of a list of objects that defines [key] decides its value. *)
Fixpoint first_defined (key : string) (objs : list object) : option value :=
  match objs with
  | [] => None
  | o :: rest =>
    match o !! key with
    | Some v => Some v
    | None => first_defined key rest
    end
  end.

(** Every object a chain or a message refers to is in the heap. *)
Definition allocated (hp : gmap loc (gmap string value)) (v : value) : Prop :=
  match v with
  | VObj l => is_Some (hp !! l)
  | _ => True
  end.

Definition chain_allocated (hp : gmap loc (gmap string value)) (ch : list item) : Prop :=
  Forall (fun it => is_Some (hp !! properties it)) ch.

(** Calling the initializers of a list of descriptors one after the other,
    each on the same properties object and configuration. *)
Fixpoint invoke_in_order (h : host) (items : list item) (this : instance) (props : loc)
    (configuration : value) : M instance :=
  match items with
  | [] => ret this
  | it :: rest =>
    this <- call_factory h (factory it) this props configuration ;;
    invoke_in_order h rest this props configuration
  end.

Definition has_initializer (it : item) : bool := negb (is_noop (factory it)).

(** The descriptor at the end of the parent links of a constructor. *)
Fixpoint root_descriptor (f : func) : option item :=
  match f with
  | Construct (Item fa n p pr) _ =>
    match p with
    | Error => Some (Item fa n p pr)
    | _ => root_descriptor p
    end
  | _ => None
  end.

(** The error types [CustomError] can return, from arguments whose
    constructors, if any, are error types built earlier. *)
Inductive built (h : host) : func -> Prop :=
| built_by order args st f st' :
    (forall d ancestors,
        AFun (Construct d ancestors) ∈ args -> built h (Construct d ancestors)) ->
    CustomError h order args st = Ok f st' ->
    built h f.

(** [sep + v] when [v] is truthy, nothing otherwise. *)
Definition segment (sep : string) (v : value) : string :=
  if truthy v then sep +:+ to_string v else "".

(** [<rootName>[ <code>][: <message>]] *)
Definition render (root_name : string) (code message : value) : string :=
  root_name +:+ segment " " code +:+ segment ": " message.

(** The four logical parameters in canonical order, with their predicates. *)
Inductive slot := SName | SParent | SProperties | SFactory.

Definition slot_index (s : slot) : nat :=
  match s with SName => 0 | SParent => 1 | SProperties => 2 | SFactory => 3 end.

Definition slot_pred (s : slot) : arg -> bool :=
  match s with
  | SName => isNameArg
  | SParent => isParentArg
  | SProperties => isPropertiesArg
  | SFactory => isFactoryArg
  end.


(** The same, seen from the classifier: [b] is the first value fit for its
    slot, and stands no further than the slot's canonical index. *)
Definition examined_out_of_order (args : list arg) : Prop :=
  exists (earlier later : slot) (i j : nat) (a b : arg),
    (slot_index earlier < slot_index later)%nat /\ (i < j <= slot_index earlier)%nat /\
    args !! i = Some a /\ args !! j = Some b /\
    slot_pred later a = true /\ slot_pred earlier b = true /\
    (forall k c, (k < j)%nat -> args !! k = Some c -> slot_pred earlier c = false).

(** [Err.order] as the module defines it, in a heap where its default
    properties still hold the code. *)
Definition loaded (order : func) (hp : gmap loc (gmap string value)) : Prop :=
  exists leaf root o,
    order = Construct leaf [root] /\
    factory leaf = Fn_noop /\ factory root = Fn_rootFactory /\
    is_Some (hp !! properties root) /\
    hp !! properties leaf = Some o /\
    o !! "code" = Some (VStr "EOARG").

(** What [rootFactory] leaves in its variables [code] and [messageStr]
    after the [forEach], and in [stack] after the capture. *)
Definition initial_code (props : object) : value :=
  match props !! "code" with
  | Some v => js_or v VUndefined
  | None => VUndefined
  end.

Definition initial_message (props : object) : value :=
  match props !! "message" with
  | Some v => js_or v (VStr "")
  | None => VStr ""
  end.

Definition kept_lines (lines : list string) : list string := "" :: drop 3 lines.

(** The own data properties of [this] once [rootFactory] has copied the
    properties and stored the stack, before the header line is rendered. *)
Definition initial_own (this_own props : object) (lines : list string) : object :=
  delete "message" (delete "code"
    (<["stack" := VStr (join_lines (kept_lines lines))]>
       (delete "code" (delete "message" props) ∪ this_own))).

(** The lines of the stack representation; none without the accessors'
    closure, where no stack was captured. *)
Definition stackLines (this : instance) : list string :=
  match observable (this_fields this) with
  | Some c => stack c
  | None => []
  end.

(** The frames kept below the header line. *)
Definition retained_frames (this : instance) : nat := (length (stackLines this) - 1)%nat.

(** [frames] respects a capture depth of [limit]: a depth that is not a
    positive number admits no frame. *)
Definition within_limit (frames : nat) (limit : number) : Prop :=
  match limit with
  | Finite z => Z.of_nat frames <= Z.max 0 z
  | PosInf => True
  | _ => frames = 0%nat
  end.

(** The host never records more frames than [Error.stackTraceLimit] allows. *)
Definition capture_bounded (h : host) : Prop :=
  forall st lines,
    capture h st = Some lines ->
    within_limit (length lines - 1) (stackTraceLimit st).


(** The depth a construction asks for: the option when usable, else the
    ambient depth. *)
Definition requested_depth (hp : gmap loc (gmap string value)) (configuration : value)
    (ambient : number) : number :=
  match configuration with
  | VObj l => read_stackLength (default ∅ (hp !! l)) ambient
  | _ => ambient
  end.

(** The heap in which the stack is captured: a configuration that is not
    an object has been replaced by a fresh empty one. *)
Definition capture_heap (hp : gmap loc (gmap string value)) (configuration : value)
    : gmap loc (gmap string value) :=
  match configuration with
  | VObj _ => hp
  | _ => <[fresh (dom hp) := ∅]> hp
  end.

(** The state in which line 172 runs. *)
Definition capture_state (st : state) (configuration : value) : state :=
  State (capture_heap (heap st) configuration)
        (add2 (requested_depth (heap st) configuration (stackTraceLimit st))).

(** A user initializer that leaves the object at [l] alone, whenever [l]
    is not the properties object it is handed. *)
Definition user_preserves (h : host) (l : loc) : Prop :=
  forall id this props configuration st,
    props <> l ->
    heap (final_state (user_call h id this props configuration st)) !! l = heap st !! l.

(** A series of constructions; one that raises leaves its state behind. *)
Fixpoint construct_all (h : host) (calls : list (item * list item * value * value))
    (st : state) : state :=
  match calls with
  | [] => st
  | (d, ancestors, message, configuration) :: rest =>
    construct_all h rest (final_state (new_construct h d ancestors message configuration st))
  end.

(** Each descriptor of a chain has the constructor of the rest of the chain
    for parent, and the last one has [Error]. *)
Fixpoint linked (d : item) (ancestors : list item) : Prop :=
  match ancestors with
  | [] => parent d = Error
  | a :: rest => parent d = Construct a rest /\ linked a rest
  end.

Definition any_of (ps : list (arg -> bool)) (a : arg) : bool :=
  existsb (fun p => p a) ps.

(** [z] is the first position below [n] whose argument satisfies [p], or
    -1 when there is none. *)
Definition first_position (p : arg -> bool) (args : list arg) (n : nat) (z : Z) : Prop :=
  (z = -1 /\ forall k, (k < n)%nat -> p (arg_at args k) = false) \/
  (exists j, z = Z.of_nat j /\ (j < n)%nat /\ p (arg_at args j) = true /\
             forall k, (k < j)%nat -> p (arg_at args k) = false).


(** The stack capture of the host never raises. *)
Definition capture_total (h : host) : Prop :=
  forall st, is_Some (capture h st).

(** ** Hosts and programs for the examples *)

(** A host in the manner of V8: a header line and as many frames of the
    call stack as the limit allows; user initializers do nothing. *)
Definition v8_capture (frames : list string) (st : state) : option (list string) :=
  match stackTraceLimit st with
  | Finite z => Some ("Error" :: take (Z.to_nat z) frames)
  | PosInf => Some ("Error" :: frames)
  | _ => Some ["Error"]
  end.

Definition call_stack : list string :=
  ["    at rootFactory"; "    at new construct"; "    at main"; "    at run";
   "    at start"; "    at boot"].

Definition quiet_host : host :=
  Host (v8_capture call_stack) (fun _ this _ _ st => Ok (this_fields this) st).

(** A host on which [.stack] is not a string, as when
    [Error.prepareStackTrace] returns the call sites themselves, so that
    [.split] raises. *)
Definition failing_host : host :=
  Host (fun _ => None) (fun _ this _ _ st => Ok (this_fields this) st).

(** A host whose user initializer number [id] appends its number to the
    [log] entry of the object at location 1. *)
Definition append_log (id : nat) (st : state) : state :=
  let entry := default ∅ (heap st !! 1%positive) in
  let old := match entry !! "log" with Some (VStr s) => s | _ => "" end in
  State (<[1%positive := <["log" := VStr (old +:+ pretty id +:+ ";")]> entry]> (heap st))
        (stackTraceLimit st).

Definition logging_host : host :=
  Host (v8_capture call_stack) (fun id this _ _ st => Ok (this_fields this) (append_log id st)).

Definition num (z : Z) : value := VNum (Finite z).

Definition empty_state : state := State ∅ (Finite 10).

(** [new f(message, configuration)] *)
Definition new_ (h : host) (f : func) (message configuration : value) : M instance :=
  match f with
  | Construct d ancestors => new_construct h d ancestors message configuration
  | _ => throw TypeError
  end.

(** Root [{x:1,y:1}], A [{y:2}], B [{y:3}], then [new B({y:4,z:9})]. *)
Definition merge_example : M (loc * object) :=
  p_root <- alloc {["x" := num 1; "y" := num 1]} ;;
  root <- CustomError quiet_host None [AVal (VStr "Root"); AVal (VObj p_root)] ;;
  p_a <- alloc {["y" := num 2]} ;;
  A <- CustomError quiet_host None [AVal (VStr "A"); AFun root; AVal (VObj p_a)] ;;
  p_b <- alloc {["y" := num 3]} ;;
  B <- CustomError quiet_host None [AVal (VStr "B"); AFun A; AVal (VObj p_b)] ;;
  message <- alloc {["y" := num 4; "z" := num 9]} ;;
  props <- merge_properties (inherited_chain B) (VObj message) ;;
  merged <- read_object props ;;
  ret (props, merged).

(** Root and A with initializers 1 and 2 that log, B without; [new B()]. *)
Definition order_example : M object :=
  log <- alloc {["log" := VStr ""]} ;;
  root <- CustomError logging_host None [AVal (VStr "Root"); AFun (Plain (Fn_user 1))] ;;
  A <- CustomError logging_host None [AVal (VStr "A"); AFun root; AFun (Plain (Fn_user 2))] ;;
  B <- CustomError logging_host None [AVal (VStr "B"); AFun A] ;;
  _ <- new_ logging_host B VUndefined VUndefined ;;
  read_object log.

(** Root with the default name, leaf [NotFoundError], and an instance of
    the leaf with code [E404] and message [missing]. *)
Definition toString_example : M (option string) :=
  root <- CustomError quiet_host None [] ;;
  leaf <- CustomError quiet_host None [AVal (VStr "NotFoundError"); AFun root] ;;
  message <- alloc {["code" := VStr "E404"; "message" := VStr "missing"]} ;;
  this <- new_ quiet_host leaf (VObj message) VUndefined ;;
  ret (toString this).







(** A root kind with an initializer of its own, an instance of it, and an
    assignment to its [code]. *)
Definition plain_root_example : M (option instance) :=
  root <- CustomError quiet_host None [AVal (VStr "Plain"); AFun (Plain (Fn_user 0))] ;;
  this <- new_ quiet_host root (VStr "boom") VUndefined ;;
  ret (set_code (VStr "E500") this).

(** An instance of a root kind with the default initializer. *)
Definition rooted_example (h : host) (message configuration : value) : M instance :=
  root <- CustomError h None [AVal (VStr "Rooted")] ;;
  new_ h root message configuration.



(** A root descriptor with the default initializer, a leaf below it, and
    instances as [rootFactory] finds and leaves them. *)
Definition root_item : item := Item Fn_rootFactory "Error" Error 1%positive.

Definition leaf_item : item :=
  Item Fn_noop "NotFoundError" (Construct root_item []) 2%positive.

Definition blank_root : instance := Object_create root_item [].

Definition settled_root : instance :=
  Instance [root_item]
    (Fields {["stack" := VStr "Error"]}
            (Some (Closure VUndefined (VStr "") ["Error"; "    at main"]))).

(** Property objects at 1 and 2, a configuration asking for one frame at 3. *)
Definition sample_state : state :=
  State (<[1%positive := {["code" := num 0; "message" := VStr ""; "x" := num 1]}]>
         (<[2%positive := {["y" := num 2]}]>
          (<[3%positive := {["stackLength" := num 1]}]> ∅)))
        (Finite 10).

(** ** Notions for the rest of the module *)

(** The arguments of a call that supplies any of the four parameters, in
    canonical order. *)
Definition supplied (n : option string) (p : option func) (pr : option loc)
    (f : option plain_fn) : list arg :=
  option_list ((fun s => AVal (VStr s)) <$> n) ++
  option_list (AFun <$> p) ++
  option_list ((fun l => AVal (VObj l)) <$> pr) ++
  option_list ((fun g => AFun (Plain g)) <$> f).

(** The constructor such a call is to return, [empty] being the object the
    call creates for the default of the properties. *)
Definition resolved (n : option string) (p : option func) (pr : option loc)
    (f : option plain_fn) (empty : loc) : func :=
  let parent := default Error p in
  let inherited := default "" (default_name parent) in
  let factory :=
    match f with
    | Some g => if is_Error parent && is_noop g then Fn_rootFactory else g
    | None => if is_Error parent then Fn_rootFactory else Fn_noop
    end in
  Construct (Item factory (default inherited n) parent (default empty pr))
            (inherited_chain parent).

(** A kind every instance of which is set up by the default initializer of
    its root, and by no other. *)
Definition root_initialized (f : func) : Prop :=
  exists root,
    List.filter has_initializer (reverse (inherited_chain f)) = [root] /\
    factory root = Fn_rootFactory.

(** A host whose user initializer 7 raises the string [nope]; the others do
    nothing. *)
Definition raising_host : host :=
  Host (v8_capture call_stack)
       (fun id this _ _ st =>
          if Nat.eqb id 7 then Throw (UserThrow (VStr "nope")) st
          else Ok (this_fields this) st).



(** Properties with a code, a message, a stack of their own and one more
    key, and the instance [rootFactory] makes of them on [quiet_host]. *)
Definition coded_state : state :=
  State {[1%positive := {["code" := VStr "E1"; "message" := VStr "boom";
                          "stack" := VStr "mine"; "x" := num 1]}]}
        (Finite 10).

Definition coded_lines : list string :=
  ["Error E1: boom"; "    at main"; "    at run"; "    at start"; "    at boot"].

Definition coded_root : instance :=
  Instance [root_item]
    (Fields {["x" := num 1; "stack" := VStr (join_lines coded_lines)]}
            (Some (Closure (VStr "E1") (VStr "boom") coded_lines))).

(** * Properties *)

(** ** The monad and the heap *)

Lemma bind_Ok {A B} (m : M A) (k : A -> M B) st a st' :
  m st = Ok a st' -> bind m k st = k a st'.
Proof. unfold bind. by intros ->. Qed.

Lemma bind_ret {A} (m : M A) st : bind m ret st = m st.
Proof. unfold bind, ret. by destruct (m st). Qed.

Lemma alloc_fresh (hp : gmap loc (gmap string value)) : hp !! fresh (dom hp) = None.
Proof. apply not_elem_of_dom, is_fresh. Qed.

Lemma fresh_ne (hp : gmap loc (gmap string value)) l :
  is_Some (hp !! l) -> l <> fresh (dom hp).
Proof.
  intros Hl ->. apply elem_of_dom in Hl. by apply is_fresh in Hl.
Qed.

(** An object literal leaves the objects of the heap as they are. *)
Lemma alloc_run o st :
  exists l,
    alloc o st = Ok l (State (<[l := o]> (heap st)) (stackTraceLimit st)) /\
    heap st !! l = None /\
    (forall l', is_Some (heap st !! l') -> l' <> l).
Proof.
  exists (fresh (dom (heap st))). split; [done|]. split; [apply alloc_fresh|].
  intros l' Hl'. by apply fresh_ne.
Qed.

(** ** Strings *)

Lemma append_assoc (a b c : string) : (a +:+ b) +:+ c = a +:+ b +:+ c.
Proof.
  induction a as [|x a IH]; [done|].
  change (String x ((a +:+ b) +:+ c) = String x (a +:+ b +:+ c)). by rewrite IH.
Qed.

Lemma append_nil_r (a : string) : a +:+ "" = a.
Proof.
  induction a as [|x a IH]; [done|].
  change (String x (a +:+ "") = String x a). by rewrite IH.
Qed.

(** ** [toString] (lines 86-91) *)

Lemma toString_render this :
  toString this =
  match last (chain this) with
  | Some root => Some (render (name root) (get_code this) (get_message this))
  | None => None
  end.
Proof.
  unfold toString. rewrite last_lookup, Nat.sub_1_r.
  destruct (chain this !! Nat.pred (length (chain this))) as [root|]; [|done].
  f_equal. unfold render, segment.
  destruct (truthy (get_code this)), (truthy (get_message this));
    rewrite ?append_assoc, ?append_nil_r; done.
Qed.

Lemma toString_is_Some this : chain this <> [] -> is_Some (toString this).
Proof.
  intros Hch. rewrite toString_render.
  destruct (last (chain this)) eqn:Hlast; [eauto|].
  by apply last_None in Hlast.
Qed.

(** ** Merging properties (lines 49-57) *)

Lemma own_enumerable_insert_ne hp target o src :
  (forall l, src = VObj l -> l <> target) ->
  own_enumerable (<[target := o]> hp) src = own_enumerable hp src.
Proof.
  intros Hne. destruct src; simpl; try done.
  rewrite lookup_insert_ne; [done|]. intros ->. by eapply Hne.
Qed.

(** Folding sources that do not alias the target into it is a fold of their
    contents, and touches the target alone. *)
Lemma foldl_assign_one target sources :
  forall objs hp lim t,
    hp !! target = Some t ->
    Forall2 (fun src o => (forall l, src = VObj l -> l <> target) /\
                          own_enumerable hp src = o) sources objs ->
    foldl (assign_one target) (State hp lim) sources =
    State (<[target := foldl fold_in t objs]> hp) lim.
Proof.
  induction sources as [|src sources IH]; intros objs hp lim t Ht Hall.
  - apply Forall2_nil_inv_l in Hall as ->. simpl. by rewrite insert_id.
  - apply Forall2_cons_inv_l in Hall as (o & objs' & [Hne Ho] & Hall & ->).
    simpl. unfold assign_one at 2. simpl. rewrite Ht, Ho. simpl.
    rewrite (IH objs' _ lim (o ∪ t)).
    + by rewrite insert_insert_eq.
    + by rewrite lookup_insert_eq.
    + eapply Forall2_impl; [exact Hall|].
      intros src' o' [Hne' Ho']. split; [done|].
      by rewrite own_enumerable_insert_ne.
Qed.

Lemma lookup_fold_in acc src key :
  fold_in acc src !! key =
  match src !! key with Some v => Some v | None => acc !! key end.
Proof.
  unfold fold_in. rewrite lookup_union.
  destruct (src !! key), (acc !! key); done.
Qed.

(** Folding in from the last object to the first gives each key the value
    of the first object that defines it. *)
Lemma lookup_foldl_fold_in key objs :
  foldl fold_in ∅ (reverse objs) !! key = first_defined key objs.
Proof.
  induction objs as [|o objs IH]; simpl.
  - by rewrite lookup_empty.
  - rewrite reverse_cons, foldl_app. simpl.
    rewrite lookup_fold_in, IH. done.
Qed.

Lemma lookup_merged_properties hp ch message key :
  merged_properties hp ch message !! key =
  first_defined key (message_object hp message :: defaults hp ch).
Proof.
  unfold merged_properties. rewrite lookup_fold_in. simpl.
  by rewrite lookup_foldl_fold_in.
Qed.

(** The message made an object: it holds what the message has to
    contribute and, when new, sits beside the objects of the heap. *)
Lemma message_as_object_run message st :
  exists message' hp',
    message_as_object message st = Ok message' (State hp' (stackTraceLimit st)) /\
    (forall l, is_Some (heap st !! l) -> hp' !! l = heap st !! l) /\
    (allocated (heap st) message -> allocated hp' message') /\
    (allocated (heap st) message ->
     own_enumerable hp' message' = message_object (heap st) message).
Proof.
  assert (Hliteral : forall o,
    (forall l, is_Some (heap st !! l) ->
               <[fresh (dom (heap st)) := o]> (heap st) !! l = heap st !! l) /\
    allocated (<[fresh (dom (heap st)) := o]> (heap st)) (VObj (fresh (dom (heap st)))) /\
    own_enumerable (<[fresh (dom (heap st)) := o]> (heap st))
      (VObj (fresh (dom (heap st)))) = o).
  { intros o. split; [|split]; simpl.
    - intros l Hl. rewrite lookup_insert_ne; [done|]. intros <-.
      by apply (fresh_ne (heap st) _ Hl).
    - rewrite lookup_insert_eq. eauto.
    - by rewrite lookup_insert_eq. }
  unfold message_as_object.
  destruct (is_string message) eqn:Hstr; [|destruct (truthy message) eqn:Htr].
  - (* a string: wrapped in a literal *)
    destruct message; try discriminate.
    destruct (Hliteral {["message" := VStr s]}) as (Hext & Halloc & Hcontents).
    eexists _, _. split; [reflexivity|]. done.
  - (* a truthy value that is not a string: kept *)
    exists message, (heap st). unfold bind, ret. rewrite Htr. simpl.
    destruct st. split; [done|]. split; [done|]. split; [done|].
    by destruct message.
  - (* a falsy value that is not a string: replaced by an empty literal *)
    destruct (Hliteral ∅) as (Hext & Halloc & Hcontents).
    eexists _, _. unfold bind, ret. rewrite Htr. simpl.
    split; [reflexivity|]. split; [done|]. split; [done|].
    intros _. rewrite Hcontents. by destruct message.
Qed.

(** What [merge_properties] does to the state: it adds the object literals
    it evaluates and the properties object, and nothing else. *)
Lemma merge_properties_run ch message st :
  chain_allocated (heap st) ch ->
  allocated (heap st) message ->
  exists props hp',
    merge_properties ch message st =
      Ok props (State (<[props := merged_properties (heap st) ch message]> hp')
                      (stackTraceLimit st)) /\
    hp' !! props = None /\
    (forall l, is_Some (heap st !! l) -> hp' !! l = heap st !! l).
Proof.
  intros Hch Hm.
  destruct (message_as_object_run message st)
    as (message' & hp1 & Hmessage & Hext & Hm' & Hcontents).
  specialize (Hm' Hm). specialize (Hcontents Hm).
  destruct (alloc_run ∅ (State hp1 (stackTraceLimit st)))
    as (target & Halloc & Htarget & Hne).
  simpl in Halloc, Htarget, Hne.
  exists target, hp1. split; [|done].
  unfold merge_properties, bind. rewrite Hmessage, Halloc.
  unfold Object_assign.
  rewrite (foldl_assign_one target _
             (reverse (defaults (heap st) ch) ++ [message_object (heap st) message])
             _ _ ∅).
  - rewrite insert_insert_eq. unfold merged_properties. by rewrite foldl_app.
  - by rewrite lookup_insert_eq.
  - apply Forall2_app.
    + unfold defaults. rewrite <- fmap_reverse.
      apply Forall2_fmap, Forall_Forall2_diag, Forall_reverse.
      eapply Forall_impl; [exact Hch|]. intros it Hit. simpl.
      assert (Hin : is_Some (hp1 !! properties it)) by (by rewrite Hext).
      split; [intros l [= <-]; by apply Hne|].
      rewrite lookup_insert_ne by (intros Heq; by apply (Hne _ Hin)).
      by rewrite Hext.
    + repeat constructor.
      * intros l ->. by apply Hne.
      * rewrite own_enumerable_insert_ne; [done|]. intros l ->. by apply Hne.
Qed.

(** C1.  For a chain of descriptors whose property objects are in the heap,
    the properties object built for an instance is a fresh object holding
    the merge the specification describes: start empty, fold in every
    descriptor's default properties from root to leaf, fold in the message
    object last.  Hence each key takes its value from the message if the
    message defines it, and otherwise from the descriptor nearest to the
    leaf that defines it. *)
Theorem merge_properties_merged ch message st :
  chain_allocated (heap st) ch ->
  allocated (heap st) message ->
  exists props st',
    merge_properties ch message st = Ok props st' /\
    heap st !! props = None /\
    heap st' !! props = Some (merged_properties (heap st) ch message) /\
    forall key,
      merged_properties (heap st) ch message !! key =
      first_defined key (message_object (heap st) message :: defaults (heap st) ch).
Proof.
  intros Hch Hm.
  destruct (merge_properties_run ch message st Hch Hm)
    as (props & hp' & Hrun & Hfresh & Hext).
  exists props, (State (<[props := merged_properties (heap st) ch message]> hp')
                       (stackTraceLimit st)).
  split; [done|]. split; [|split].
  - destruct (heap st !! props) eqn:Hp; [|done].
    rewrite <- Hext, Hfresh in Hp by (rewrite Hp; eauto). done.
  - simpl. by rewrite lookup_insert_eq.
  - intros key. apply lookup_merged_properties.
Qed.

(** The merge at a chain of two descriptors and an object for message. *)
Lemma merge_properties_merged_witness :
  let st := State (<[1%positive := {["x" := num 1; "y" := num 1]}]>
                   (<[2%positive := {["y" := num 2]}]>
                    (<[3%positive := {["y" := num 4; "z" := num 9]}]> ∅))) (Finite 10) in
  let ch := [Item Fn_noop "A" Error 2%positive; Item Fn_rootFactory "Root" Error 1%positive] in
  exists props st',
    merge_properties ch (VObj 3%positive) st = Ok props st' /\
    heap st !! props = None /\
    heap st' !! props = Some (merged_properties (heap st) ch (VObj 3%positive)) /\
    forall key,
      merged_properties (heap st) ch (VObj 3%positive) !! key =
      first_defined key (message_object (heap st) (VObj 3%positive) :: defaults (heap st) ch).
Proof.
  intros st ch. apply (merge_properties_merged ch (VObj 3%positive) st).
  - repeat constructor; vm_compute; eauto.
  - vm_compute; eauto.
Defined.

(** The example of the specification: root [{x:1,y:1}], A [{y:2}],
    B [{y:3}] and the message [{y:4,z:9}] merge to [{x:1,y:4,z:9}]. *)
Example merge_example_result :
  match merge_example empty_state with
  | Ok (_, merged) _ => merged = {["x" := num 1; "y" := num 4; "z" := num 9]}
  | Throw _ _ => False
  end.
Proof. vm_compute. reflexivity. Qed.

Lemma foldl_assign_one_frame target l sources :
  forall st,
    l <> target ->
    heap (foldl (assign_one target) st sources) !! l = heap st !! l.
Proof.
  induction sources as [|src sources IH]; intros st Hne; [done|].
  simpl. rewrite IH by done. simpl. by rewrite lookup_insert_ne.
Qed.

Lemma foldl_assign_one_limit target sources :
  forall st, stackTraceLimit (foldl (assign_one target) st sources) = stackTraceLimit st.
Proof.
  induction sources as [|src sources IH]; intros st; [done|].
  simpl. by rewrite IH.
Qed.

(** The merge writes to the object it creates and to no object that was
    there before. *)
Lemma merge_properties_frame ch message st l v :
  heap st !! l = Some v ->
  exists props st',
    merge_properties ch message st = Ok props st' /\
    props <> l /\ heap st' !! l = Some v.
Proof.
  intros Hl.
  destruct (message_as_object_run message st) as (message' & hp1 & Hmessage & Hext & _).
  destruct (alloc_run ∅ (State hp1 (stackTraceLimit st)))
    as (target & Halloc & _ & Hne).
  simpl in Halloc, Hne.
  assert (Hl1 : hp1 !! l = Some v) by (rewrite Hext; eauto).
  assert (Htarget : target <> l) by (intros ->; eapply Hne; eauto).
  eexists target, _. unfold merge_properties, bind. rewrite Hmessage, Halloc.
  split; [reflexivity|]. split; [done|].
  rewrite foldl_assign_one_frame by done. simpl. by rewrite lookup_insert_ne.
Qed.

Lemma merge_properties_limit ch message st props st' :
  merge_properties ch message st = Ok props st' ->
  stackTraceLimit st' = stackTraceLimit st.
Proof.
  destruct (message_as_object_run message st) as (message' & hp1 & Hmessage & _).
  unfold merge_properties, bind. rewrite Hmessage. simpl.
  intros [= _ <-]. by rewrite foldl_assign_one_limit.
Qed.

(** ** [rootFactory] (lines 141-209) *)

Lemma updateStack_chain ch o c this :
  updateStack ch o c = Some this -> chain this = ch.
Proof.
  unfold updateStack. destruct (toString _); [|done]. by intros [= <-].
Qed.

(** [updateStack] renders line 0 from the instance as it stands and leaves
    the other lines alone. *)
Lemma updateStack_run ch o c :
  ch <> [] ->
  exists s,
    toString (Instance ch (Fields o (Some c))) = Some s /\
    updateStack ch o c =
      Some (Instance ch
              (Fields (<["stack" := VStr (join_lines (set_first s (stack c)))]> o)
                      (Some (Closure (code c) (messageStr c) (set_first s (stack c)))))).
Proof.
  intros Hch.
  destruct (toString_is_Some (Instance ch (Fields o (Some c))) Hch) as [s Hs].
  exists s. split; [done|]. unfold updateStack. by rewrite Hs.
Qed.

(** The header line does not depend on the lines of the stack. *)
Lemma toString_set_first ch o o' c s :
  toString (Instance ch (Fields o' (Some (Closure (code c) (messageStr c) s)))) =
  toString (Instance ch (Fields o (Some c))).
Proof. by rewrite !toString_render. Qed.

(** Equality of maps built from unions, insertions and deletions, key by key. *)
Ltac by_lookup :=
  apply map_eq; intros k;
  repeat first [rewrite lookup_union | rewrite lookup_delete | rewrite lookup_insert];
  repeat case_decide; simplify_eq; try done.

Lemma map_fold_copy_key (props : object) c0 m0 (o0 : object) :
  map_fold copy_key (c0, m0, o0) props =
  (match props !! "code" with Some v => js_or v VUndefined | None => c0 end,
   match props !! "message" with Some v => js_or v (VStr "") | None => m0 end,
   delete "code" (delete "message" props) ∪ o0).
Proof.
  apply (map_fold_weak_ind
           (fun r (m : object) =>
              r = (match m !! "code" with Some v => js_or v VUndefined | None => c0 end,
                   match m !! "message" with Some v => js_or v (VStr "") | None => m0 end,
                   delete "code" (delete "message" m) ∪ o0))).
  - rewrite !lookup_empty, !delete_empty. by rewrite (left_id_L ∅ (∪)).
  - intros key v m r Hkey ->. unfold copy_key.
    destruct (String.eqb_spec key "code") as [->|Hcode];
      [|destruct (String.eqb_spec key "message") as [->|Hmessage]].
    + rewrite lookup_insert_eq, lookup_insert_ne by done.
      do 2 f_equal. by_lookup.
    + rewrite lookup_insert_eq, lookup_insert_ne by done.
      do 2 f_equal. by_lookup.
    + rewrite !lookup_insert_ne by done.
      f_equal. by_lookup. by destruct (o0 !! k).
Qed.

Lemma default_capture_heap hp configuration (l : loc) :
  default (∅ : object) (capture_heap hp configuration !! l) = default ∅ (hp !! l).
Proof.
  unfold capture_heap. destruct configuration; try done;
    (destruct (decide (l = fresh (dom hp))) as [->|Hne];
     [by rewrite lookup_insert_eq, alloc_fresh
     |by rewrite lookup_insert_ne]).
Qed.

(** [rootFactory] step by step: the capture runs in [capture_state]; when
    it raises, that state is left behind; when it returns, the limit is put
    back and the instance gets its fields. *)
Lemma rootFactory_run h this properties configuration st :
  rootFactory h this properties configuration st =
  match capture h (capture_state st configuration) with
  | None => Throw TypeError (capture_state st configuration)
  | Some lines =>
    let props := default ∅ (heap st !! properties) in
    lift_option
      (updateStack (chain this)
         (initial_own (own (this_fields this)) props lines)
         (Closure (initial_code props) (initial_message props) (kept_lines lines)))
      (State (capture_heap (heap st) configuration) (stackTraceLimit st))
  end.
Proof.
  destruct st as [hp lim].
  assert (Hgeneral : forall hp' cfg,
    (forall l, default (∅ : object) (hp' !! l) = default ∅ (hp !! l)) ->
    (props <- read_object properties ;;
     let '(code, messageStr, this_own) :=
       map_fold copy_key (VUndefined, VStr "", own (this_fields this)) props in
     _ <- set_limit (add2 (read_stackLength cfg lim)) ;;
     stack <- capture_stack h ;;
     let stack := drop 3 stack in
     let stack := "" :: stack in
     _ <- set_limit lim ;;
     let this_own := <["stack" := VStr (join_lines stack)]> this_own in
     let this_own := delete "message" (delete "code" this_own) in
     lift_option (updateStack (chain this) this_own (Closure code messageStr stack)))
      (State hp' lim) =
    match capture h (State hp' (add2 (read_stackLength cfg lim))) with
    | None => Throw TypeError (State hp' (add2 (read_stackLength cfg lim)))
    | Some lines =>
      let props := default ∅ (hp !! properties) in
      lift_option
        (updateStack (chain this)
           (initial_own (own (this_fields this)) props lines)
           (Closure (initial_code props) (initial_message props) (kept_lines lines)))
        (State hp' lim)
    end).
  { intros hp' cfg Hhp'. unfold bind at 1. unfold read_object at 1. simpl.
    rewrite Hhp', map_fold_copy_key.
    unfold bind, set_limit, capture_stack. simpl.
    destruct (capture h _) as [lines|]; done. }
  unfold rootFactory, capture_state.
  do 2 (erewrite bind_Ok by reflexivity). simpl.
  destruct (negb (truthy configuration) || negb (is_object configuration))
    eqn:Hnormal.
  - (* replaced by a fresh empty object *)
    do 2 (erewrite bind_Ok by reflexivity). simpl.
    rewrite lookup_insert_eq. simpl.
    etrans; [apply Hgeneral|].
    + intros l. apply (default_capture_heap hp VUndefined l).
    + assert (Hdepth : requested_depth hp configuration lim = lim)
        by (by destruct configuration).
      assert (Hheap : capture_heap hp configuration = <[fresh (dom hp) := ∅]> hp)
        by (by destruct configuration).
      rewrite Hdepth, Hheap. unfold read_stackLength. by rewrite lookup_empty.
  - (* an object: kept *)
    destruct configuration as [| |b|n|s|l]; try discriminate;
      try (by destruct b); try (by rewrite orb_true_r in Hnormal).
    do 2 (erewrite bind_Ok by reflexivity). simpl.
    etrans; [apply Hgeneral|]; done.
Qed.

Lemma rootFactory_chain h this properties configuration st this' st' :
  rootFactory h this properties configuration st = Ok this' st' ->
  chain this' = chain this.
Proof.
  rewrite rootFactory_run. destruct (capture h _); [|done]. simpl.
  destruct (updateStack _ _ _) as [updated|] eqn:Hupdate; [|done].
  intros [= <- _]. by eapply updateStack_chain.
Qed.

(** The root initializer installs the observable fields. *)
Lemma rootFactory_observable h this properties configuration st this' st' :
  rootFactory h this properties configuration st = Ok this' st' ->
  is_Some (observable (this_fields this')) /\ chain this' = chain this /\ chain this <> [].
Proof.
  intros Hrun. split; [|split; [by eapply rootFactory_chain|]].
  - rewrite rootFactory_run in Hrun. destruct (capture h _); [|done]. simpl in Hrun.
    unfold updateStack in Hrun. destruct (toString _); [|done].
    injection Hrun as <- _. simpl. eauto.
  - rewrite rootFactory_run in Hrun. destruct (capture h _); [|done]. simpl in Hrun.
    unfold updateStack, toString in Hrun. simpl in Hrun.
    intros Hnil. rewrite Hnil in Hrun. done.
Qed.

Lemma rootFactory_frame h this properties configuration st l v :
  heap st !! l = Some v ->
  heap (final_state (rootFactory h this properties configuration st)) !! l = Some v.
Proof.
  intros Hl.
  assert (Hheap : capture_heap (heap st) configuration !! l = Some v).
  { unfold capture_heap. destruct configuration; try done;
      (rewrite lookup_insert_ne; [done|]; intros Heq;
       apply (fresh_ne (heap st) l); eauto). }
  rewrite rootFactory_run. destruct (capture h _); [|done]. simpl.
  by destruct (updateStack _ _ _).
Qed.

(** ** Falsy code and message (lines 156-168) *)




(** ** The stack depth (lines 144-176) *)



(** Dropping the header and two frames from a capture that was allowed two
    frames more than [depth] leaves no more than [depth] frames. *)
Lemma within_limit_kept lines depth :
  within_limit (length lines - 1) (add2 depth) ->
  within_limit (length (kept_lines lines) - 1) depth.
Proof.
  unfold kept_lines. simpl. rewrite length_drop, Nat.sub_0_r.
  destruct depth; simpl; lia.
Qed.

Lemma rootFactory_retained h this properties configuration st this' st' :
  capture_bounded h ->
  rootFactory h this properties configuration st = Ok this' st' ->
  within_limit (retained_frames this')
    (requested_depth (heap st) configuration (stackTraceLimit st)).
Proof.
  intros Hbounded. rewrite rootFactory_run.
  destruct (capture h _) as [lines|] eqn:Hcapture; [|done]. simpl.
  apply Hbounded in Hcapture. simpl in Hcapture.
  unfold updateStack. destruct (toString _); [|done].
  intros [= <- _]. unfold retained_frames, stackLines. simpl.
  apply within_limit_kept in Hcapture. by simpl in Hcapture.
Qed.


(** How [rootFactory] ends when the capture returns and the chain has a
    last descriptor: with an instance, the heap of the capture and the
    limit found on entry. *)
Lemma rootFactory_returns h this properties configuration st lines :
  chain this <> [] ->
  capture h (capture_state st configuration) = Some lines ->
  exists this',
    rootFactory h this properties configuration st =
    Ok this' (State (capture_heap (heap st) configuration) (stackTraceLimit st)).
Proof.
  intros Hch Hcapture. rewrite rootFactory_run, Hcapture. simpl.
  destruct (updateStack_run (chain this)
              (initial_own (own (this_fields this))
                 (default ∅ (heap st !! properties)) lines)
              (Closure (initial_code (default ∅ (heap st !! properties)))
                 (initial_message (default ∅ (heap st !! properties)))
                 (kept_lines lines))
              Hch) as (s & _ & ->).
  eauto.
Qed.



(** A whole construction with [{stackLength: 1}]: one frame of the caller
    is kept below the header line, which shows the name and the message. *)
Example rooted_example_stack :
  match rooted_example quiet_host (VStr "boom") (VObj 3%positive) sample_state with
  | Ok this st =>
    stackLines this = ["Rooted: boom"; "    at main"] /\
    stackTraceLimit st = Finite 10
  | Throw _ _ => False
  end.
Proof. vm_compute. done. Qed.

(** ** Restoring the limit (lines 146, 171-175) *)



(** The same through a whole construction: [new Rooted()] on that host
    raises a TypeError and leaves the limit at 12. *)
Example rooted_example_limit :
  match rooted_example failing_host VUndefined VUndefined empty_state with
  | Throw TypeError st => stackTraceLimit st = Finite 12
  | _ => False
  end.
Proof. vm_compute. reflexivity. Qed.

(** ** The observable fields (lines 178-208) *)

Lemma set_first_head s lines : set_first s lines !! 0%nat = Some s.
Proof. by destruct lines. Qed.

Lemma set_first_tail s lines i : set_first s lines !! S i = lines !! S i.
Proof. by destruct lines. Qed.

(** What a write through one of the accessors does, [c'] being the closure
    after the assignment to [code] or [messageStr]. *)
Lemma updateStack_setter this c c' :
  observable (this_fields this) = Some c ->
  chain this <> [] ->
  stack c' = stack c ->
  exists this' s,
    updateStack (chain this) (own (this_fields this)) c' = Some this' /\
    toString this' = Some s /\
    get_code this' = code c' /\
    get_message this' = messageStr c' /\
    stackLines this' !! 0%nat = Some s /\
    (forall i, stackLines this' !! S i = stackLines this !! S i) /\
    own (this_fields this') !! "stack" = Some (VStr (join_lines (stackLines this'))).
Proof.
  intros Hobs Hch Hstack.
  destruct (updateStack_run (chain this) (own (this_fields this)) c' Hch)
    as (s & Hs & Hupdate).
  eexists _, s. split; [exact Hupdate|].
  split; [|split; [done|split; [done|split; [|split]]]].
  - rewrite <- Hs. apply toString_set_first.
  - unfold stackLines. simpl. apply set_first_head.
  - intros i. unfold stackLines. rewrite Hobs. simpl.
    by rewrite set_first_tail, Hstack.
  - simpl. by rewrite lookup_insert_eq.
Qed.

(** C5, for the instances the root initializer has set up.  On an
    instance that carries the observable [code]
    and [message] fields the root initializer installs, assigning any value
    to [code] or to [message] stores the value, sets line 0 of the stack
    lines to what [toString()] then returns, leaves every later line as it
    was, and stores the joined lines in the [stack] property. *)
Theorem setters_update_stack this c v :
  observable (this_fields this) = Some c ->
  chain this <> [] ->
  (exists this' s,
      set_code v this = Some this' /\
      toString this' = Some s /\
      get_code this' = v /\
      stackLines this' !! 0%nat = Some s /\
      (forall i, stackLines this' !! S i = stackLines this !! S i) /\
      own (this_fields this') !! "stack" = Some (VStr (join_lines (stackLines this')))) /\
  (exists this' s,
      set_message v this = Some this' /\
      toString this' = Some s /\
      get_message this' = v /\
      stackLines this' !! 0%nat = Some s /\
      (forall i, stackLines this' !! S i = stackLines this !! S i) /\
      own (this_fields this') !! "stack" = Some (VStr (join_lines (stackLines this')))).
Proof.
  intros Hobs Hch. split.
  - destruct (updateStack_setter this c (Closure v (messageStr c) (stack c)) Hobs Hch eq_refl)
      as (this' & s & Hupdate & Hs & Hcode & _ & H0 & Htail & Hstack).
    exists this', s. unfold set_code. rewrite Hobs. done.
  - destruct (updateStack_setter this c (Closure (code c) v (stack c)) Hobs Hch eq_refl)
      as (this' & s & Hupdate & Hs & _ & Hmessage & H0 & Htail & Hstack).
    exists this', s. unfold set_message. rewrite Hobs. done.
Qed.

(** The setters on an instance with a header line and one frame. *)
Lemma setters_update_stack_witness :
  (exists this' s,
      set_code (VStr "E500") settled_root = Some this' /\
      toString this' = Some s /\
      get_code this' = VStr "E500" /\
      stackLines this' !! 0%nat = Some s /\
      (forall i, stackLines this' !! S i = stackLines settled_root !! S i) /\
      own (this_fields this') !! "stack" = Some (VStr (join_lines (stackLines this')))) /\
  (exists this' s,
      set_message (VStr "E500") settled_root = Some this' /\
      toString this' = Some s /\
      get_message this' = VStr "E500" /\
      stackLines this' !! 0%nat = Some s /\
      (forall i, stackLines this' !! S i = stackLines settled_root !! S i) /\
      own (this_fields this') !! "stack" = Some (VStr (join_lines (stackLines this')))).
Proof.
  apply (setters_update_stack settled_root
           (Closure VUndefined (VStr "") ["Error"; "    at main"]) (VStr "E500")).
  - reflexivity.
  - discriminate.
Defined.

(** An instance of a root kind defined with an initializer of its own has
    no observable fields: after [code] is assigned, [toString()] shows the
    new code, but there is no stack line 0 and no [stack] property. *)
Lemma setter_without_root_initializer :
  match plain_root_example empty_state with
  | Ok (Some this') _ =>
    toString this' = Some "Plain E500" /\
    stackLines this' !! 0%nat = None /\
    own (this_fields this') !! "stack" = None
  | _ => False
  end.
Proof. vm_compute. done. Qed.

(** ** The initializers (lines 59-65) *)

Lemma call_factory_chain h f this props configuration st this' st' :
  call_factory h f this props configuration st = Ok this' st' ->
  chain this' = chain this.
Proof.
  destruct f as [| |id]; simpl.
  - by intros [= <- _].
  - apply rootFactory_chain.
  - destruct (user_call h id this props configuration st); [|done].
    by intros [= <- _].
Qed.

(** The countdown over the indices of the chain visits the descriptors that
    have an initializer from the last one down. *)
Lemma run_factories_in_order h props configuration n :
  forall this st,
    (n <= length (chain this))%nat ->
    run_factories h n this props configuration st =
    invoke_in_order h (List.filter has_initializer (reverse (take n (chain this))))
      this props configuration st.
Proof.
  induction n as [|i IH]; intros this st Hn.
  - by rewrite take_0.
  - destruct (lookup_lt_is_Some_2 (chain this) i) as [it Hit]; [lia|].
    rewrite (take_S_r _ _ _ Hit), reverse_snoc. simpl. rewrite Hit.
    unfold has_initializer at 1.
    destruct (negb (is_noop (factory it))); simpl.
    + unfold bind.
      destruct (call_factory h (factory it) this props configuration st)
        as [this' st'|e st'] eqn:Hcall; [|done].
      apply call_factory_chain in Hcall.
      rewrite IH by (rewrite Hcall; lia). by rewrite Hcall.
    + unfold bind, ret. apply IH. lia.
Qed.



(** The example of the specification: the initializers of the root (1) and
    of A (2) write to a shared log; an instance of B logs the root first. *)
Example order_example_result :
  match order_example empty_state with
  | Ok log _ => log !! "log" = Some (VStr "1;2;")
  | Throw _ _ => False
  end.
Proof. vm_compute. reflexivity. Qed.

(** ** Calling without [new] (line 38) *)


(** ** Kinds whose only initializer is the default one of the root *)

(** When the root descriptor alone has an initializer, and it is the
    default one, a construction is the merge followed by [rootFactory]. *)
Lemma construct_body_root_only h this message configuration st root :
  List.filter has_initializer (reverse (chain this)) = [root] ->
  factory root = Fn_rootFactory ->
  construct_body h this message configuration st =
  (props <- merge_properties (chain this) message ;;
   rootFactory h this props configuration) st.
Proof.
  intros Hfilter Hroot. unfold construct_body, bind.
  destruct (merge_properties (chain this) message st) as [props st1|]; [|done].
  rewrite run_factories_in_order, firstn_all, Hfilter by done.
  simpl. rewrite Hroot. apply bind_ret.
Qed.

(** Such a construction leaves an instance with the observable fields, and
    with no more frames than the depth asked for. *)
Lemma constructed_by_root h this message configuration st root this' st' :
  List.filter has_initializer (reverse (chain this)) = [root] ->
  factory root = Fn_rootFactory ->
  allocated (heap st) configuration ->
  construct_body h this message configuration st = Ok this' st' ->
  is_Some (observable (this_fields this')) /\
  chain this' <> [] /\
  (capture_bounded h ->
   within_limit (retained_frames this')
     (requested_depth (heap st) configuration (stackTraceLimit st))).
Proof.
  intros Hfilter Hroot Hcfg.
  rewrite (construct_body_root_only h this message configuration st root) by done.
  unfold bind.
  destruct (merge_properties (chain this) message st) as [props st1|] eqn:Hmerge; [|done].
  intros Hrun.
  destruct (rootFactory_observable _ _ _ _ _ _ _ Hrun) as (Hobs & Hchain & Hne).
  split; [done|]. split; [by rewrite Hchain|].
  intros Hbounded.
  pose proof (rootFactory_retained _ _ _ _ _ _ _ Hbounded Hrun) as Hkept.
  assert (Hsame : requested_depth (heap st1) configuration (stackTraceLimit st1) =
                  requested_depth (heap st) configuration (stackTraceLimit st)).
  { rewrite (merge_properties_limit _ _ _ _ _ Hmerge).
    destruct configuration as [| | | | |l]; try done. simpl in *.
    destruct Hcfg as [o Ho].
    destruct (merge_properties_frame (chain this) message st l o Ho)
      as (props' & st1' & Hmerge' & _ & Hl).
    rewrite Hmerge in Hmerge'. injection Hmerge' as _ <-.
    by rewrite Hl, Ho. }
  by rewrite <- Hsame.
Qed.

(** ** What a construction leaves alone *)

Section Frame.

(** A host of which the initializers of the user leave the object at [l]
    alone. *)
Variable h : host.
Variable l : loc.
Hypothesis user_frame : user_preserves h l.

Lemma call_factory_frame f this props configuration st v :
  props <> l ->
  heap st !! l = Some v ->
  heap (final_state (call_factory h f this props configuration st)) !! l = Some v.
Proof.
  intros Hne Hl. destruct f as [| |id]; simpl.
  - done.
  - by apply rootFactory_frame.
  - pose proof (user_frame id this props configuration st Hne) as Huser.
    destruct (user_call h id this props configuration st); simpl in *; congruence.
Qed.

Lemma run_factories_frame props configuration v n :
  props <> l ->
  forall this st,
    heap st !! l = Some v ->
    heap (final_state (run_factories h n this props configuration st)) !! l = Some v.
Proof.
  intros Hne. induction n as [|i IH]; intros this st Hl; [done|].
  simpl. destruct (chain this !! i) as [it|]; [|done].
  unfold bind. destruct (negb (is_noop (factory it))).
  - pose proof (call_factory_frame (factory it) this props configuration st v Hne Hl)
      as Hcall.
    destruct (call_factory h (factory it) this props configuration st); [|done].
    by apply IH.
  - by apply IH.
Qed.

Lemma construct_body_frame this message configuration st v :
  heap st !! l = Some v ->
  heap (final_state (construct_body h this message configuration st)) !! l = Some v.
Proof.
  intros Hl. unfold construct_body, bind.
  destruct (merge_properties_frame (chain this) message st l v Hl)
    as (props & st' & -> & Hne & Hl').
  by apply run_factories_frame.
Qed.

(** C9.  Whatever constructions are run one after the other, an object
    that is in the heap before them, such as the default properties of a
    descriptor or an object passed as the message, holds the same
    properties after them (the user's own initializers being supposed not
    to write to it): the library writes the merged properties to an object
    it creates for the purpose. *)
Theorem constructions_preserve_objects calls st v :
  heap st !! l = Some v ->
  heap (construct_all h calls st) !! l = Some v.
Proof.
  revert st.
  induction calls as [|[[[d ancestors] message] configuration] calls IH];
    intros st Hl; [done|].
  simpl. apply IH. unfold new_construct. by apply construct_body_frame.
Qed.

End Frame.

Lemma quiet_host_user_preserves l : user_preserves quiet_host l.
Proof. intros id this props configuration st Hne. reflexivity. Qed.

(** Two constructions in a row leave the object at 2 as it was. *)
Lemma constructions_preserve_objects_witness :
  heap (construct_all quiet_host
          [(leaf_item, [root_item], VObj 3%positive, VUndefined);
           (root_item, [], VStr "again", VObj 3%positive)]
          sample_state) !! 2%positive = Some {["y" := num 2]}.
Proof.
  apply (constructions_preserve_objects quiet_host 2%positive).
  - apply quiet_host_user_preserves.
  - vm_compute. reflexivity.
Defined.

(** ** The argument classifier (lines 99-121) *)

Lemma foldl_antiFilters (antiFilters : list (arg -> bool)) val (i anti : Z) :
  foldl (fun (anti : Z) (antiFilter : arg -> bool) => if antiFilter val then i else anti)
        anti antiFilters =
  if any_of antiFilters val then i else anti.
Proof.
  revert anti. induction antiFilters as [|p ps IH]; intros anti; [done|].
  simpl. rewrite IH. by destruct (p val), (any_of ps val).
Qed.

Lemma first_position_step p args n z :
  first_position p args n z ->
  first_position p args (S n) (if (z =? -1) && p (arg_at args n) then Z.of_nat n else z).
Proof.
  intros [[-> Hnone]|(j & -> & Hj & Hp & Hfirst)].
  - simpl. destruct (p (arg_at args n)) eqn:Hn.
    + right. exists n. repeat split; [lia|done|done].
    + left. split; [done|]. intros k Hk.
      destruct (decide (k = n)) as [->|]; [done|apply Hnone; lia].
  - replace (Z.of_nat j =? -1) with false by lia. simpl.
    right. exists j. repeat split; [lia|done|done].
Qed.

Lemma scan_step_first args filter antiFilters n anti found :
  first_position (any_of antiFilters) args n anti ->
  first_position filter args n found ->
  first_position (any_of antiFilters) args (S n)
    (fst (scan_step args filter antiFilters (anti, found) n)) /\
  first_position filter args (S n)
    (snd (scan_step args filter antiFilters (anti, found) n)).
Proof.
  intros Hanti Hfound. unfold scan_step. simpl. split.
  - rewrite foldl_antiFilters.
    apply first_position_step in Hanti.
    by destruct (anti =? -1), (any_of antiFilters (arg_at args n)).
  - by apply first_position_step.
Qed.

Lemma scan_first args filter antiFilters n :
  first_position (any_of antiFilters) args n
    (fst (foldl (scan_step args filter antiFilters) (-1, -1) (seq 0 n))) /\
  first_position filter args n
    (snd (foldl (scan_step args filter antiFilters) (-1, -1) (seq 0 n))).
Proof.
  induction n as [|n [IHa IHf]].
  - simpl. split; left; (split; [done|lia]).
  - rewrite seq_S, foldl_app. simpl.
    destruct (foldl _ _ (seq 0 n)) as [anti found].
    by apply scan_step_first.
Qed.

Lemma first_position_unique p args n z z' :
  first_position p args n z -> first_position p args n z' -> z = z'.
Proof.
  intros [[-> Hnone]|(j & -> & Hj & Hp & Hfirst)]
         [[-> Hnone']|(j' & -> & Hj' & Hp' & Hfirst')]; try done.
  - by rewrite Hnone in Hp'.
  - by rewrite Hnone' in Hp.
  - destruct (Nat.lt_trichotomy j j') as [Hlt|[->|Hlt]]; [|done|].
    + by rewrite (Hfirst' _ Hlt) in Hp.
    + by rewrite (Hfirst _ Hlt) in Hp'.
Qed.

(** [findArg] in terms of the first positions of the scanned range. *)
Lemma findArg_run h order args index defaultValue filter antiFilters st :
  exists anti found,
    first_position (any_of antiFilters) args (S (Nat.min index (length args))) anti /\
    first_position filter args (S (Nat.min index (length args))) found /\
    findArg h order args index defaultValue filter antiFilters st =
    if negb (found =? -1) && negb (anti =? -1) && (anti <? found)
    then throw_order h order st
    else Ok (if negb (found =? -1) then arg_at args (Z.to_nat found) else defaultValue) st.
Proof.
  unfold findArg.
  assert (Hlen : (if (index <? length args)%nat then index else length args) =
                 Nat.min index (length args)).
  { destruct (Nat.ltb_spec index (length args)); lia. }
  rewrite Hlen.
  destruct (scan_first args filter antiFilters (S (Nat.min index (length args))))
    as [Hanti Hfound].
  destruct (foldl _ _ _) as [anti found]. simpl in *.
  exists anti, found. repeat split; [done|done|].
  by destruct (negb (found =? -1) && negb (anti =? -1) && (anti <? found)).
Qed.

(** A value [findArg] returns is its default or an argument that passes
    the filter; the state is as before. *)
Lemma findArg_Ok h order args index defaultValue filter antiFilters st a st' :
  findArg h order args index defaultValue filter antiFilters st = Ok a st' ->
  st' = st /\
  (a = defaultValue \/ exists j, a = arg_at args j /\ filter a = true).
Proof.
  destruct (findArg_run h order args index defaultValue filter antiFilters st)
    as (anti & found & _ & Hfound & ->).
  destruct (negb (found =? -1) && negb (anti =? -1) && (anti <? found)).
  - unfold throw_order. destruct order as [[| |]|]; try done.
    unfold bind. by destruct (new_construct _ _ _ _ _ _).
  - intros [= <- <-]. split; [done|].
    destruct Hfound as [[-> _]|(j & -> & _ & Hp & _)]; [by left|].
    assert ((Z.of_nat j =? -1) = false) as -> by (apply Z.eqb_neq; lia). simpl.
    rewrite Nat2Z.id. right. eauto.
Qed.

(** [findArg] returns, or the scanned positions hold an anti-filter match
    before the first match of the filter. *)
Lemma findArg_returns h order args index defaultValue filter antiFilters st :
  (exists a, findArg h order args index defaultValue filter antiFilters st = Ok a st /\
             (a = defaultValue \/ exists j, a = arg_at args j /\ filter a = true)) \/
  (exists i j,
      (i < j <= Nat.min index (length args))%nat /\
      any_of antiFilters (arg_at args i) = true /\
      filter (arg_at args j) = true /\
      forall k, (k < j)%nat -> filter (arg_at args k) = false).
Proof.
  destruct (findArg_run h order args index defaultValue filter antiFilters st)
    as (anti & found & Ha & Hf & Hrun).
  destruct (negb (found =? -1) && negb (anti =? -1) && (anti <? found)) eqn:Hcond.
  - right.
    apply andb_prop in Hcond as [Hcond Hlt]. apply andb_prop in Hcond as [Hfound Hanti].
    apply negb_true_iff, Z.eqb_neq in Hfound, Hanti. apply Z.ltb_lt in Hlt.
    destruct Ha as [[-> _]|(i & -> & Hi & Hai & _)]; [done|].
    destruct Hf as [[-> _]|(j & -> & Hj & Hfj & Hfirst)]; [done|].
    exists i, j. repeat split; [lia|lia|done|done|done].
  - left. eexists. split; [exact Hrun|].
    destruct Hf as [[-> _]|(j & -> & _ & Hfj & _)]; [by left|].
    assert ((Z.of_nat j =? -1) = false) as -> by (apply Z.eqb_neq; lia). simpl.
    rewrite Nat2Z.id. right. eauto.
Qed.

(** [findArg] raises as soon as an anti-filter matches before the first
    match of the filter, within the scanned positions. *)
Lemma findArg_raises h order args index defaultValue filter antiFilters st i j :
  (i < j)%nat -> (j <= index)%nat -> (j < length args)%nat ->
  any_of antiFilters (arg_at args i) = true ->
  filter (arg_at args j) = true ->
  (forall k, (k < j)%nat -> filter (arg_at args k) = false) ->
  findArg h order args index defaultValue filter antiFilters st = throw_order h order st.
Proof.
  intros Hij Hj Hlen Hanti Hfilter Hfirst.
  destruct (findArg_run h order args index defaultValue filter antiFilters st)
    as (anti & found & Ha & Hf & ->).
  assert (found = Z.of_nat j) as ->.
  { apply (first_position_unique filter args (S (Nat.min index (length args)))); [done|].
    right. exists j. repeat split; [lia|done|done]. }
  destruct Ha as [[-> Hnone]|(i' & -> & _ & _ & Hbefore)].
  - rewrite Hnone in Hanti by lia. done.
  - assert (i' <= i)%nat.
    { destruct (Nat.le_gt_cases i' i) as [|Hgt]; [done|].
      by rewrite (Hbefore _ Hgt) in Hanti. }
    assert ((Z.of_nat j =? -1) = false) as -> by (apply Z.eqb_neq; lia).
    assert ((Z.of_nat i' =? -1) = false) as -> by (apply Z.eqb_neq; lia).
    assert ((Z.of_nat i' <? Z.of_nat j) = true) as -> by (apply Z.ltb_lt; lia).
    done.
Qed.

Lemma findArg_cases h order args index defaultValue filter antiFilters st :
  findArg h order args index defaultValue filter antiFilters st = throw_order h order st \/
  exists a, findArg h order args index defaultValue filter antiFilters st = Ok a st.
Proof.
  destruct (findArg_run h order args index defaultValue filter antiFilters st)
    as (anti & found & _ & _ & ->).
  destruct (negb (found =? -1) && negb (anti =? -1) && (anti <? found)); eauto.
Qed.

Lemma arg_at_lookup args i a : args !! i = Some a -> arg_at args i = a.
Proof. unfold arg_at. by intros ->. Qed.

Lemma arg_at_defined args j :
  arg_at args j <> AVal VUndefined -> exists a, args !! j = Some a /\ arg_at args j = a.
Proof.
  unfold arg_at. destruct (args !! j) as [a|]; simpl; [eauto|done].
Qed.

Lemma arg_at_function args j f : arg_at args j = AFun f -> AFun f ∈ args.
Proof.
  unfold arg_at. destruct (args !! j) as [a|] eqn:Hj; simpl; [|done].
  intros ->. by eapply list_elem_of_lookup_2.
Qed.

(** ** The chain of a built error type (lines 76-83) *)

(** What [CustomError] returns: a descriptor whose parent is [Error], with
    no ancestors, or one of the arguments, with that parent's chain for
    ancestors. *)
Lemma CustomError_Ok h order args st f st' :
  CustomError h order args st = Ok f st' ->
  exists d ancestors,
    f = Construct d ancestors /\
    ((parent d = Error /\ ancestors = []) \/
     (exists p rest, parent d = Construct p rest /\ ancestors = p :: rest /\
                     AFun (Construct p rest) ∈ args)).
Proof.
  unfold CustomError, bind.
  destruct (findArg h order args 1 _ _ _ st) as [parent st1|] eqn:Hparent; [|done].
  apply findArg_Ok in Hparent as [-> Hparent]. simpl.
  destruct (findArg h order args 2 _ _ _ _) as [props st2|] eqn:Hprops; [|done].
  destruct (findArg h order args 3 _ _ _ _) as [fa st3|] eqn:Hfactory; [|done].
  destruct parent as [|parent]; [done|].
  destruct props as [[| | | | |props]|]; try done.
  destruct fa as [|[| |fa]]; try done.
  destruct (lift_option (default_name parent) st3) as [inherited st4|]; [|done].
  destruct (findArg h order args 0 _ _ _ _) as [[[| | | |n|]|] st5|]; try done.
  intros [= <- _]. eexists _, _. split; [reflexivity|]. simpl.
  destruct Hparent as [[= ->]|(j & Hj & Hfilter)].
  - by left.
  - destruct parent as [|p rest|]; [by left| |done].
    right. exists p, rest. repeat split. by eapply arg_at_function.
Qed.

Lemma built_linked h f :
  built h f -> forall d ancestors, f = Construct d ancestors -> linked d ancestors.
Proof.
  induction 1 as [order args st f st' Hargs IH Hrun].
  intros d ancestors ->.
  apply CustomError_Ok in Hrun
    as (d' & ancestors' & [= <- <-] & [[Hp ->]|(p & rest & Hp & -> & Hin)]).
  - done.
  - simpl. split; [done|]. by eapply IH.
Qed.

Lemma linked_root ancestors :
  forall d,
    linked d ancestors ->
    exists root,
      root_descriptor (Construct d ancestors) = Some root /\
      last (d :: ancestors) = Some root /\
      parent root = Error.
Proof.
  induction ancestors as [|a rest IH]; intros [fa n p pr]; simpl.
  - intros ->. eauto.
  - intros [-> Hlinked]. destruct (IH a Hlinked) as (root & Hroot & Hlast & Hparent).
    eauto.
Qed.

(** C3.  On every instance of a built error type, [toString()] returns the
    name of the root descriptor (the descriptor the parent links end at,
    whose parent is [Error], and the last element of the instance's chain),
    followed by a space and the code when the code is present (truthy),
    followed by a colon, a space and the message when the message is
    present (truthy). *)
Theorem toString_root_name h d ancestors fs :
  built h (Construct d ancestors) ->
  exists root,
    root_descriptor (Construct d ancestors) = Some root /\
    parent root = Error /\
    last (d :: ancestors) = Some root /\
    let this := Instance (d :: ancestors) fs in
    toString this = Some (render (name root) (get_code this) (get_message this)).
Proof.
  intros Hbuilt.
  destruct (linked_root ancestors d (built_linked h _ Hbuilt d ancestors eq_refl))
    as (root & Hroot & Hlast & Hparent).
  exists root. split; [done|]. split; [done|]. split; [done|].
  intros this. rewrite toString_render. unfold this. simpl chain. by rewrite Hlast.
Qed.

(** [NotFoundError] below a root named [Error], both built by [CustomError]. *)
Lemma toString_root_name_witness :
  exists root,
    root_descriptor (Construct leaf_item [root_item]) = Some root /\
    parent root = Error /\
    last [leaf_item; root_item] = Some root /\
    let this := Instance [leaf_item; root_item] (Fields ∅ None) in
    toString this = Some (render (name root) (get_code this) (get_message this)).
Proof.
  apply (toString_root_name quiet_host leaf_item [root_item] (Fields ∅ None)).
  apply (built_by quiet_host None
           [AVal (VStr "NotFoundError"); AFun (Construct root_item [])]
           (State {[1%positive := ∅]} (Finite 10))
           _
           (State (<[2%positive := ∅]> {[1%positive := ∅]}) (Finite 10))).
  - intros d ancestors Hin.
    apply elem_of_cons in Hin as [Hin|Hin]; [discriminate|].
    apply list_elem_of_singleton in Hin. injection Hin as -> ->.
    apply (built_by quiet_host None [] empty_state _ (State {[1%positive := ∅]} (Finite 10))).
    + intros d ancestors Hin. by apply not_elem_of_nil in Hin.
    + vm_compute. reflexivity.
  - vm_compute. reflexivity.
Defined.

(** The example of the specification: the root is named [Error], the leaf
    [NotFoundError], and an instance of the leaf with code [E404] and
    message [missing] renders with the root's name. *)
Example toString_example_result :
  match toString_example empty_state with
  | Ok rendered _ => rendered = Some "Error E404: missing"
  | Throw _ _ => False
  end.
Proof. vm_compute. reflexivity. Qed.

(** ** Arguments out of order (lines 3-4, 119) *)



Section ArgumentOrder.

(** A host whose stack capture never raises, so that an instance of
    [Err.order] can always be made. *)
Variable h : host.
Hypothesis capture_never_raises : capture_total h.



End ArgumentOrder.

(** The hosts of the examples meet the assumptions made of hosts. *)
Lemma quiet_host_capture_total : capture_total quiet_host.
Proof.
  intros st. simpl. unfold v8_capture. destruct (stackTraceLimit st); eauto.
Qed.

(** Loading the module succeeds and leaves [Err.order] as [loaded] wants it. *)
Lemma module_init_loaded h st :
  exists Err order st',
    module_init h st = Ok (Err, order) st' /\ loaded order (heap st').
Proof.
  eexists _, _, _. split; [reflexivity|]. simpl.
  eexists _, _, _. split; [reflexivity|]. simpl.
  split; [done|]. split; [done|].
  set (l1 := fresh (dom (heap st))).
  set (hp1 := <[l1 := ∅]> (heap st)).
  set (l2 := fresh (dom hp1)).
  set (hp2 := <[l2 := _]> hp1).
  set (l3 := fresh (dom hp2)).
  assert (l1 <> l2).
  { intros Heq. apply (fresh_ne hp1 l1); [|done]. unfold hp1.
    rewrite lookup_insert_eq. eauto. }
  assert (l2 <> l3).
  { intros Heq. apply (fresh_ne hp2 l2); [|done]. unfold hp2.
    rewrite lookup_insert_eq. eauto. }
  assert (l1 <> l3).
  { intros Heq. apply (fresh_ne hp2 l1); [|done]. unfold hp2, hp1.
    rewrite lookup_insert_ne, lookup_insert_eq by done. eauto. }
  split; [|split].
  - unfold hp2, hp1. rewrite !lookup_insert_ne, lookup_insert_eq by done. eauto.
  - unfold hp2. rewrite lookup_insert_ne, lookup_insert_eq by done. reflexivity.
  - done.
Qed.



(** A match before the first match of the filter of a slot, within the
    positions scanned for the slot, is an argument out of order as the
    classifier sees it. *)
Lemma scanned_out_of_order args earlier antiFilters i j :
  (forall a, any_of antiFilters a = true ->
             exists later, (slot_index earlier < slot_index later)%nat /\
                           slot_pred later a = true) ->
  (i < j <= Nat.min (slot_index earlier) (length args))%nat ->
  any_of antiFilters (arg_at args i) = true ->
  slot_pred earlier (arg_at args j) = true ->
  (forall k, (k < j)%nat -> slot_pred earlier (arg_at args k) = false) ->
  examined_out_of_order args.
Proof.
  intros Hlater Hij Hanti Hfilter Hfirst.
  destruct (Hlater _ Hanti) as (later & Hslots & Hpred).
  destruct (arg_at_defined args i) as (a & Ha & Hai).
  { intros Heq. rewrite Heq in Hpred. by destruct later. }
  destruct (arg_at_defined args j) as (b & Hb & Hbj).
  { intros Heq. rewrite Heq in Hfilter. by destruct earlier. }
  exists earlier, later, i, j, a, b. subst a b.
  split; [done|]. split; [lia|]. split; [done|]. split; [done|].
  split; [done|]. split; [done|].
  intros k c Hk Hc. rewrite <- (arg_at_lookup _ _ _ Hc). by apply Hfirst.
Qed.

(** Unless an argument is out of order as the classifier sees it,
    [CustomError] returns a constructor: no other exception is raised. *)
Lemma CustomError_returns h order args st :
  ~ examined_out_of_order args ->
  exists f st', CustomError h order args st = Ok f st'.
Proof.
  intros Hordered. unfold CustomError.
  (* parent *)
  destruct (findArg_returns h order args 1 (AFun Error) isParentArg
              [isPropertiesArg; isFactoryArg] st)
    as [(parent & Hparent & Hp)|(i & j & Hij & Hanti & Hfilter & Hfirst)].
  2:{ destruct Hordered.
      apply (scanned_out_of_order args SParent [isPropertiesArg; isFactoryArg] i j);
        try done.
      intros a Ha. simpl in Ha. rewrite orb_false_r in Ha.
      apply orb_prop in Ha as [Ha|Ha];
        [exists SProperties|exists SFactory]; split; simpl; try lia; done. }
  unfold bind at 1. rewrite Hparent.
  unfold bind at 1. simpl.
  set (st1 := State _ _).
  (* properties *)
  destruct (findArg_returns h order args 2 (AVal (VObj (fresh (dom (heap st)))))
              isPropertiesArg [isFactoryArg] st1)
    as [(props & Hprops & Hpr)|(i & j & Hij & Hanti & Hfilter & Hfirst)].
  2:{ destruct Hordered.
      apply (scanned_out_of_order args SProperties [isFactoryArg] i j); try done.
      intros a Ha. simpl in Ha. rewrite orb_false_r in Ha.
      exists SFactory. split; simpl; [lia|done]. }
  unfold bind at 1. rewrite Hprops.
  (* factory *)
  destruct (findArg_returns h order args 3 (AFun (Plain Fn_noop)) isFactoryArg [] st1)
    as [(fa & Hfactory & Hfa)|(i & j & _ & Hanti & _)]; [|done].
  unfold bind at 1. rewrite Hfactory.
  assert (exists p, parent = AFun p /\ (p = Error \/ exists d rest, p = Construct d rest))
    as (p & -> & Hp').
  { destruct Hp as [->|(j & _ & Hfilter)]; [eauto|].
    destruct parent as [|[|d rest|]]; try done; eauto 10. }
  assert (exists l, props = AVal (VObj l)) as (l & ->).
  { destruct Hpr as [->|(j & _ & Hfilter)]; [eauto|].
    destruct props as [[| | | | |l]|]; simpl in Hfilter;
      rewrite ?andb_false_r in Hfilter; try done; eauto. }
  assert (exists f, fa = AFun (Plain f)) as (f & ->).
  { destruct Hfa as [->|(j & _ & Hfilter)]; [eauto|].
    destruct fa as [|[| |f]]; try done; eauto. }
  assert (exists inherited, default_name p = Some inherited) as (inherited & Hname).
  { destruct Hp' as [->|(d & rest & ->)]; simpl; eauto. }
  rewrite Hname. unfold bind at 1. simpl.
  (* name *)
  destruct (findArg_returns h order args 0 (AVal (VStr inherited)) isNameArg
              [isParentArg; isPropertiesArg; isFactoryArg] st1)
    as [(n & Hn & Hnm)|(i & j & Hij & _)]; [|lia].
  unfold bind. rewrite Hn.
  assert (exists s, n = AVal (VStr s)) as (s & ->).
  { destruct Hnm as [->|(j & _ & Hfilter)]; [eauto|].
    destruct n as [[| | | |s|]|]; try done; eauto. }
  eauto.
Qed.

(** * More of the module *)

(** ** The predicates of the classifier (lines 123-137) *)

(** X1.  An argument fits at most one of the four slots, and [undefined],
    [null], booleans and numbers fit none: a string is a name, an object
    that is not [null] is a properties object, [Error] and the
    constructors [CustomError] returns are parents, and any other function
    is a factory. *)
Theorem slots_disjoint a :
  (forall s s', slot_pred s a = true -> slot_pred s' a = true -> s = s') /\
  (forall s, slot_pred s a = true ->
             match a with
             | AVal (VStr _) => s = SName
             | AVal (VObj _) => s = SProperties
             | AVal _ => False
             | AFun (Plain _) => s = SFactory
             | AFun _ => s = SParent
             end).
Proof.
  split.
  - intros s s'.
    destruct a as [[| |b|n|str|l]|[|d ancestors|g]], s, s'; simpl;
      rewrite ?andb_false_r; done.
  - intros s.
    destruct a as [[| |b|n|str|l]|[|d ancestors|g]], s; simpl;
      rewrite ?andb_false_r; done.
Qed.

(** ** What [findArg] returns (lines 99-121) *)

(** X2.  When [findArg] returns, the state is as it was, and the value is
    the first argument that passes the filter among the positions 0 to
    [index] (as far as there are arguments), or the default when none of
    them passes. *)
Theorem findArg_first_match h order args index defaultValue filter antiFilters st a st' :
  findArg h order args index defaultValue filter antiFilters st = Ok a st' ->
  st' = st /\
  ((a = defaultValue /\
    forall k, (k <= Nat.min index (length args))%nat -> filter (arg_at args k) = false) \/
   (exists j, (j <= Nat.min index (length args))%nat /\
              a = arg_at args j /\ filter a = true /\
              forall k, (k < j)%nat -> filter (arg_at args k) = false)).
Proof.
  destruct (findArg_run h order args index defaultValue filter antiFilters st)
    as (anti & found & _ & Hfound & ->).
  destruct (negb (found =? -1) && negb (anti =? -1) && (anti <? found)).
  - unfold throw_order. destruct order as [[| |]|]; try done.
    unfold bind. by destruct (new_construct _ _ _ _ _ _).
  - intros [= <- <-]. split; [done|].
    destruct Hfound as [[-> Hnone]|(j & -> & Hj & Hp & Hfirst)].
    + left. split; [done|]. intros k Hk. apply Hnone. lia.
    + assert ((Z.of_nat j =? -1) = false) as -> by (apply Z.eqb_neq; lia). simpl.
      rewrite Nat2Z.id. right. exists j. repeat split; [lia|done|done].
Qed.

(** The program of the example: the second of two arguments is looked for
    at positions 0 and 1. *)
Lemma findArg_first_match_witness :
  State ∅ (Finite 10) = State ∅ (Finite 10) /\
  ((AFun Error = AFun (Plain Fn_noop) /\
    forall k, (k <= Nat.min 1 2)%nat ->
              isParentArg (arg_at [AVal (VStr "Kind"); AFun Error] k) = false) \/
   (exists j, (j <= Nat.min 1 2)%nat /\
              AFun Error = arg_at [AVal (VStr "Kind"); AFun Error] j /\
              isParentArg (AFun Error) = true /\
              forall k, (k < j)%nat ->
                        isParentArg (arg_at [AVal (VStr "Kind"); AFun Error] k) = false)).
Proof.
  apply (findArg_first_match quiet_host None [AVal (VStr "Kind"); AFun Error] 1
           (AFun (Plain Fn_noop)) isParentArg [isPropertiesArg; isFactoryArg]
           (State ∅ (Finite 10)) (AFun Error) (State ∅ (Finite 10))).
  vm_compute. reflexivity.
Defined.

(** ** When and how [CustomError] returns (lines 16-94) *)

Lemma throw_order_not_Ok {A} h order st (a : A) st' :
  @throw_order h A order st <> Ok a st'.
Proof.
  unfold throw_order. destruct order as [[| |]|]; try done.
  unfold bind. by destruct (new_construct _ _ _ _ _ _).
Qed.

(** With an argument out of order as the classifier sees it, the call ends
    at [throw new Err.order()], in the first or the second [findArg]. *)
Lemma CustomError_throws h order args st :
  examined_out_of_order args ->
  exists st1, CustomError h order args st = @throw_order h func order st1.
Proof.
  intros (earlier & later & i & j & a & b & Hslots & [Hij Hj] & Hi & Hjb & Ha & Hb & Hfirst).
  assert (Hlen : (j < length args)%nat) by (by eapply lookup_lt_Some).
  assert (Hfirst' : forall k, (k < j)%nat -> slot_pred earlier (arg_at args k) = false).
  { intros k Hk. destruct (lookup_lt_is_Some_2 args k) as [c Hc]; [lia|].
    rewrite (arg_at_lookup _ _ _ Hc). by eapply Hfirst. }
  apply arg_at_lookup in Hi, Hjb. subst a b.
  assert (Hthrow : forall B (k : arg -> M B) st0,
             bind (@throw_order h arg order) k st0 = @throw_order h B order st0).
  { intros B k st0. unfold bind, throw_order. destruct order as [[| |]|]; try done.
    unfold bind. by destruct (new_construct _ _ _ _ _ _). }
  unfold CustomError.
  destruct earlier; simpl in Hj, Hslots.
  - lia.
  - exists st. unfold bind at 1.
    rewrite (findArg_raises h order args 1 _ isParentArg _ st i j); try done.
    + apply (Hthrow func).
    + destruct later; simpl in *; try lia; rewrite Ha; by rewrite ?orb_true_r.
  - destruct (findArg_cases h order args 1 (AFun Error) isParentArg
                [isPropertiesArg; isFactoryArg] st) as [Hraise|[parent Hparent]].
    + exists st. unfold bind at 1. rewrite Hraise. apply (Hthrow func).
    + eexists. unfold bind at 1. rewrite Hparent.
      unfold bind at 1. simpl. unfold bind at 1.
      rewrite (findArg_raises h order args 2 _ isPropertiesArg _ _ i j); try done.
      * apply (Hthrow func).
      * destruct later; simpl in *; try lia. by rewrite Ha.
  - destruct later; simpl in Hslots; lia.
Qed.

(** X3.  [CustomError] returns a constructor exactly when no argument is
    out of order as the classifier sees it: nothing else makes a
    definition fail, whatever the host, the state and the arguments, these
    being data values, [Error], constructors [CustomError] returned and
    ordinary functions (which have a [prototype]). *)
Theorem CustomError_returns_iff h order args st :
  (exists f st', CustomError h order args st = Ok f st') <->
  ~ examined_out_of_order args.
Proof.
  split.
  - intros (f & st' & Hrun) Hout.
    destruct (CustomError_throws h order args st Hout) as [st1 Hthrow].
    rewrite Hthrow in Hrun. by apply throw_order_not_Ok in Hrun.
  - apply CustomError_returns.
Qed.

(** The state [CustomError] returns in: one empty object more, for the
    default of the properties. *)
Lemma CustomError_Ok_state h order args st f st' :
  CustomError h order args st = Ok f st' ->
  st' = State (<[fresh (dom (heap st)) := ∅]> (heap st)) (stackTraceLimit st).
Proof.
  unfold CustomError, bind.
  destruct (findArg h order args 1 _ _ _ st) as [parent st1|] eqn:Hparent; [|done].
  apply findArg_Ok in Hparent as [-> _]. simpl.
  destruct (findArg h order args 2 _ _ _ _) as [props st2|] eqn:Hprops; [|done].
  apply findArg_Ok in Hprops as [-> _].
  destruct (findArg h order args 3 _ _ _ _) as [fa st3|] eqn:Hfactory; [|done].
  apply findArg_Ok in Hfactory as [-> _].
  destruct parent as [|parent]; [done|].
  destruct props as [[| | | | |props]|]; try done.
  destruct fa as [|[| |fa]]; try done.
  destruct (default_name parent); [|done]. simpl.
  destruct (findArg h order args 0 _ _ _ _) as [[[| | | |n|]|] st5|] eqn:Hname; try done.
  apply findArg_Ok in Hname as [-> _]. by intros [= _ <-].
Qed.

(** X4.  Defining a kind leaves every data object of the heap and the
    stack trace limit as they were; the one data object it adds is an
    empty one, the [{}] of line 22, which is the default properties when
    none are given. *)
Theorem CustomError_frame h order args st f st' :
  CustomError h order args st = Ok f st' ->
  stackTraceLimit st' = stackTraceLimit st /\
  (forall l v, heap st !! l = Some v -> heap st' !! l = Some v) /\
  (forall l, heap st !! l = None -> is_Some (heap st' !! l) -> heap st' !! l = Some ∅).
Proof.
  intros Hrun. apply CustomError_Ok_state in Hrun as ->. simpl.
  split; [done|]. split.
  - intros l v Hl. rewrite lookup_insert_ne; [done|].
    intros Heq. apply (fresh_ne (heap st) l); eauto.
  - intros l Hl. rewrite lookup_insert. case_decide; [done|].
    rewrite Hl. by intros [? ?].
Qed.

(** [CustomError('Kind', Error)] in a heap with one object. *)
Lemma CustomError_frame_witness :
  let st := State {[1%positive := {["a" := num 1]}]} (Finite 10) in
  let st' := State (<[2%positive := ∅]> {[1%positive := {["a" := num 1]}]}) (Finite 10) in
  stackTraceLimit st' = stackTraceLimit st /\
  (forall l v, heap st !! l = Some v -> heap st' !! l = Some v) /\
  (forall l, heap st !! l = None -> is_Some (heap st' !! l) -> heap st' !! l = Some ∅).
Proof.
  intros st st'.
  apply (CustomError_frame quiet_host None [AVal (VStr "Kind"); AFun Error] st
           (Construct (Item Fn_rootFactory "Kind" Error 2%positive) []) st').
  vm_compute. reflexivity.
Defined.

(** A call that supplies its arguments in canonical order gets each of
    them in its slot, and the defaults in the others. *)
Lemma CustomError_supplied h order n p pr f st :
  (forall g, p = Some g -> isParentArg (AFun g) = true) ->
  CustomError h order (supplied n p pr f) st =
  Ok (resolved n p pr f (fresh (dom (heap st))))
     (State (<[fresh (dom (heap st)) := ∅]> (heap st)) (stackTraceLimit st)).
Proof.
  intros Hp. destruct st as [hp lim].
  destruct p as [[|d ancestors|g]|];
    [| |by specialize (Hp _ eq_refl)|];
    destruct n as [n|], pr as [pr|], f as [f|];
    try reflexivity;
    unfold CustomError, supplied, resolved, findArg, bind;
    repeat (progress (simpl; rewrite ?andb_false_r)); reflexivity.
Qed.



(** X16.  A kind defined without a factory, as a root kind or below a kind
    that the default initializer of its root alone sets up, is again set
    up by that initializer alone: stack capture and the observable fields
    are inherited down a tree of kinds that define no factory. *)
Theorem CustomError_root_initialized h order n p pr st f st' :
  (forall g, p = Some g ->
             g = Error \/ ((exists d ancestors, g = Construct d ancestors) /\
                           root_initialized g)) ->
  CustomError h order (supplied n p pr None) st = Ok f st' ->
  root_initialized f.
Proof.
  intros Hp. rewrite CustomError_supplied.
  - intros [= <- _]. unfold resolved, root_initialized.
    destruct p as [g|]; [destruct (Hp g eq_refl) as [->|[(d & ancestors & ->) Hroot]]|].
    + eexists. simpl. split; reflexivity.
    + destruct Hroot as (root & Hfilter & Hroot). exists root. split; [|done].
      simpl default. simpl inherited_chain in *. cbv zeta.
      rewrite (reverse_cons (d :: ancestors)), List.filter_app, Hfilter. done.
    + eexists. simpl. split; reflexivity.
  - intros g Hg. destruct (Hp g Hg) as [->|[(d & ancestors & ->) _]]; done.
Qed.

(** A kind below a root kind with the default initializer. *)
Lemma CustomError_root_initialized_witness :
  root_initialized (Construct (Item Fn_noop "Leaf" (Construct root_item []) 1%positive)
                              [root_item]).
Proof.
  apply (CustomError_root_initialized quiet_host None (Some "Leaf")
           (Some (Construct root_item [])) None empty_state _
           (State {[1%positive := ∅]} (Finite 10))).
  - intros g [= <-]. right. split; [eauto|].
    exists root_item. split; reflexivity.
  - vm_compute. reflexivity.
Defined.

(** ** Arguments past the fourth (lines 99-121) *)

Lemma foldl_ext_in {A B} (f g : A -> B -> A) (l : list B) :
  forall a, (forall a x, x ∈ l -> f a x = g a x) -> foldl f a l = foldl g a l.
Proof.
  induction l as [|x l IH]; intros a Hfg; [done|].
  simpl. rewrite Hfg by left. apply IH. intros a' y Hy. apply Hfg. by right.
Qed.

Lemma arg_at_take args n k : (k < n)%nat -> arg_at (take n args) k = arg_at args k.
Proof. intros Hk. unfold arg_at. by rewrite lookup_take_lt. Qed.

(** [findArg] looks no further than position [index]. *)
Lemma findArg_take h order args index defaultValue filter antiFilters :
  (index <= 3)%nat ->
  findArg h order (take 4 args) index defaultValue filter antiFilters =
  findArg h order args index defaultValue filter antiFilters.
Proof.
  intros Hindex. unfold findArg.
  assert (Hlen : (if (index <? length (take 4 args))%nat then index
                  else length (take 4 args)) =
                 (if (index <? length args)%nat then index else length args)).
  { rewrite length_take.
    destruct (Nat.ltb_spec index (Nat.min 4 (length args))),
             (Nat.ltb_spec index (length args)); lia. }
  rewrite Hlen.
  set (len := if (index <? length args)%nat then index else length args).
  assert (Hbound : (len <= 3)%nat).
  { unfold len. destruct (Nat.ltb_spec index (length args)); lia. }
  assert (Hscan : foldl (scan_step (take 4 args) filter antiFilters) (-1, -1)
                    (seq 0 (S len)) =
                  foldl (scan_step args filter antiFilters) (-1, -1) (seq 0 (S len))).
  { apply foldl_ext_in. intros [anti found] i Hi.
    apply elem_of_seq in Hi. unfold scan_step.
    rewrite arg_at_take by lia. done. }
  rewrite Hscan.
  pose proof (scan_first args filter antiFilters (S len)) as [_ Hfound].
  destruct (foldl (scan_step args filter antiFilters) _ _) as [anti found].
  simpl in Hfound.
  destruct (negb (found =? -1) && negb (anti =? -1) && (anti <? found)); [done|].
  destruct Hfound as [[-> _]|(j & -> & Hj & _)]; [done|].
  rewrite Nat2Z.id, arg_at_take by lia. done.
Qed.

(** X6.  Only the first four arguments count: defining a kind with more
    arguments gives, in every state, the outcome of the call with the
    first four alone. *)
Theorem CustomError_ignores_further_arguments h order args st :
  CustomError h order args st = CustomError h order (take 4 args) st.
Proof.
  unfold CustomError, bind.
  rewrite findArg_take by lia.
  destruct (findArg h order args 1 _ _ _ st) as [parent st1|]; [|done].
  destruct (alloc ∅ st1) as [empty st2|]; [|done].
  rewrite findArg_take by lia.
  destruct (findArg h order args 2 _ _ _ st2) as [props st3|]; [|done].
  rewrite findArg_take by lia.
  destruct (findArg h order args 3 _ _ _ st3) as [fa st4|]; [|done].
  destruct parent as [|parent]; [done|].
  destruct props as [[| | | | |props]|]; try done.
  destruct fa as [|[| |fa]]; try done.
  destruct (lift_option (default_name parent) st4) as [inherited st5|]; [|done].
  rewrite findArg_take by lia. done.
Qed.

(** ** The chain of a built kind, descriptor by descriptor (lines 26-28, 76-83) *)

(** A root kind never keeps [noop] for its initializer. *)
Lemma CustomError_Ok_root_factory h order args st d ancestors st' :
  CustomError h order args st = Ok (Construct d ancestors) st' ->
  parent d = Error ->
  factory d <> Fn_noop.
Proof.
  unfold CustomError, bind.
  destruct (findArg h order args 1 _ _ _ st) as [parent st1|]; [|done].
  destruct (alloc ∅ st1) as [empty st2|]; [|done].
  destruct (findArg h order args 2 _ _ _ st2) as [props st3|]; [|done].
  destruct (findArg h order args 3 _ _ _ st3) as [fa st4|]; [|done].
  destruct parent as [|parent]; [done|].
  destruct props as [[| | | | |props]|]; try done.
  destruct fa as [|[| |fa]]; try done.
  destruct (lift_option (default_name parent) st4) as [inherited st5|]; [|done].
  destruct (findArg h order args 0 _ _ _ _) as [[[| | | |n|]|] st6|]; try done.
  intros [= <- _]. simpl. intros ->. by destruct fa.
Qed.

Lemma built_root_factory h f :
  built h f ->
  forall d ancestors, f = Construct d ancestors ->
  exists root, last (d :: ancestors) = Some root /\ factory root <> Fn_noop.
Proof.
  induction 1 as [order args st f st' Hargs IH Hrun].
  intros d ancestors ->.
  pose proof (CustomError_Ok_root_factory _ _ _ _ _ _ _ Hrun) as Hfactory.
  apply CustomError_Ok in Hrun
    as (d' & ancestors' & [= <- <-] & [[Hp ->]|(p & rest & Hp & -> & Hin)]).
  - exists d. split; [done|]. by apply Hfactory.
  - destruct (IH p rest Hin p rest eq_refl) as (root & Hlast & Hroot).
    exists root. split; [|done]. by rewrite last_cons, Hlast.
Qed.

Lemma linked_lookup ancestors :
  forall d i it,
    linked d ancestors ->
    (d :: ancestors) !! i = Some it ->
    parent it = match drop (S i) (d :: ancestors) with
                | [] => Error
                | a :: rest => Construct a rest
                end.
Proof.
  induction ancestors as [|a rest IH]; intros d i it Hlinked Hit.
  - destruct i as [|i]; [|done]. injection Hit as <-. done.
  - destruct Hlinked as [Hp Hlinked]. destruct i as [|i].
    + injection Hit as <-. done.
    + by apply (IH a i it Hlinked).
Qed.

(** The error type [leaf_item] below [root_item], as [CustomError] builds it. *)
Lemma leaf_built : built quiet_host (Construct leaf_item [root_item]).
Proof.
  apply (built_by quiet_host None
           [AVal (VStr "NotFoundError"); AFun (Construct root_item [])]
           (State {[1%positive := ∅]} (Finite 10))
           _
           (State (<[2%positive := ∅]> {[1%positive := ∅]}) (Finite 10))).
  - intros d ancestors Hin.
    apply elem_of_cons in Hin as [Hin|Hin]; [discriminate|].
    apply list_elem_of_singleton in Hin. injection Hin as -> ->.
    apply (built_by quiet_host None [] empty_state _ (State {[1%positive := ∅]} (Finite 10))).
    + intros d ancestors Hin. by apply not_elem_of_nil in Hin.
    + vm_compute. reflexivity.
  - vm_compute. reflexivity.
Qed.

(** X7.  In the chain of a built error type, the parent of each descriptor
    is the constructor made of the descriptors after it, and [Error] for
    the last; the last descriptor, the root, has an initializer, so that a
    construction always runs at least one. *)
Theorem built_chain h d ancestors :
  built h (Construct d ancestors) ->
  (forall i it,
      (d :: ancestors) !! i = Some it ->
      parent it = match drop (S i) (d :: ancestors) with
                  | [] => Error
                  | a :: rest => Construct a rest
                  end) /\
  exists root,
    last (d :: ancestors) = Some root /\ parent root = Error /\
    has_initializer root = true.
Proof.
  intros Hbuilt.
  pose proof (built_linked h _ Hbuilt d ancestors eq_refl) as Hlinked.
  split.
  - intros i it. by apply linked_lookup.
  - destruct (built_root_factory h _ Hbuilt d ancestors eq_refl) as (root & Hlast & Hroot).
    destruct (linked_root ancestors d Hlinked) as (root' & _ & Hlast' & Hparent).
    rewrite Hlast in Hlast'. injection Hlast' as <-.
    exists root. split; [done|]. split; [done|].
    unfold has_initializer. by destruct (factory root).
Qed.

Lemma built_chain_witness :
  (forall i it,
      [leaf_item; root_item] !! i = Some it ->
      parent it = match drop (S i) [leaf_item; root_item] with
                  | [] => Error
                  | a :: rest => Construct a rest
                  end) /\
  exists root,
    last [leaf_item; root_item] = Some root /\ parent root = Error /\
    has_initializer root = true.
Proof.
  apply (built_chain quiet_host leaf_item [root_item]).
  apply leaf_built.
Defined.

(** ** What [rootFactory] leaves on the instance (lines 156-176, 203-208) *)

(** A return of [rootFactory], in full. *)
Lemma rootFactory_Ok h this properties configuration st this' st' :
  rootFactory h this properties configuration st = Ok this' st' ->
  exists lines s,
    let props := default ∅ (heap st !! properties) in
    capture h (capture_state st configuration) = Some lines /\
    toString this' = Some s /\
    this' = Instance (chain this)
              (Fields (<["stack" := VStr (join_lines (s :: drop 3 lines))]>
                         (initial_own (own (this_fields this)) props lines))
                      (Some (Closure (initial_code props) (initial_message props)
                                     (s :: drop 3 lines)))) /\
    st' = State (capture_heap (heap st) configuration) (stackTraceLimit st).
Proof.
  rewrite rootFactory_run.
  destruct (capture h _) as [lines|]; [|done]. simpl.
  unfold updateStack.
  destruct (toString _) as [s|] eqn:Hs; [|done]. simpl.
  intros [= <- <-]. exists lines, s. simpl.
  split; [done|]. split; [|done].
  rewrite <- Hs. rewrite !toString_render. done.
Qed.

(** X8.  When [rootFactory] returns, every property of the properties
    object other than [code], [message] and [stack] is an own property of
    the instance with the same value, the other own properties of the
    instance are as they were, and [code] and [message] are not own data
    properties: they are only behind the accessors. *)
Theorem rootFactory_copies_properties h this properties configuration st this' st' :
  rootFactory h this properties configuration st = Ok this' st' ->
  let props := default ∅ (heap st !! properties) in
  (forall key,
      key <> "code" -> key <> "message" -> key <> "stack" ->
      own (this_fields this') !! key =
      match props !! key with
      | Some v => Some v
      | None => own (this_fields this) !! key
      end) /\
  own (this_fields this') !! "code" = None /\
  own (this_fields this') !! "message" = None.
Proof.
  intros Hrun props.
  apply rootFactory_Ok in Hrun as (lines & s & _ & _ & -> & _). simpl.
  fold props. unfold initial_own.
  split; [|split].
  - intros key Hcode Hmessage Hstack.
    rewrite lookup_insert_ne by done.
    rewrite !lookup_delete_ne by done.
    rewrite lookup_insert_ne by done.
    rewrite lookup_union, !lookup_delete_ne by done.
    destruct (props !! key), (own (this_fields this) !! key); done.
  - rewrite lookup_insert_ne by done.
    rewrite lookup_delete_ne by done. by rewrite lookup_delete_eq.
  - rewrite lookup_insert_ne by done. by rewrite lookup_delete_eq.
Qed.

Lemma rootFactory_copies_properties_witness :
  let props := default ∅ (heap coded_state !! 1%positive) in
  (forall key,
      key <> "code" -> key <> "message" -> key <> "stack" ->
      own (this_fields coded_root) !! key =
      match props !! key with
      | Some v => Some v
      | None => own (this_fields blank_root) !! key
      end) /\
  own (this_fields coded_root) !! "code" = None /\
  own (this_fields coded_root) !! "message" = None.
Proof.
  apply (rootFactory_copies_properties quiet_host blank_root 1%positive VUndefined
           coded_state coded_root
           (State (capture_heap (heap coded_state) VUndefined) (Finite 10))).
  vm_compute. reflexivity.
Defined.

(** X9.  When [rootFactory] returns, the stack of the instance is the line
    [toString()] renders followed by the captured lines but the first
    three, and the own [stack] property is these lines joined; a [stack]
    among the properties does not survive. *)
Theorem rootFactory_header_and_frames h this properties configuration st this' st' :
  rootFactory h this properties configuration st = Ok this' st' ->
  exists lines s,
    capture h (capture_state st configuration) = Some lines /\
    toString this' = Some s /\
    stackLines this' = s :: drop 3 lines /\
    own (this_fields this') !! "stack" = Some (VStr (join_lines (s :: drop 3 lines))).
Proof.
  intros Hrun.
  apply rootFactory_Ok in Hrun as (lines & s & Hcapture & Hs & Hthis & _).
  exists lines, s. split; [done|]. split; [done|].
  rewrite Hthis. simpl. unfold stackLines. simpl. split; [done|].
  by rewrite lookup_insert_eq.
Qed.

Lemma rootFactory_header_and_frames_witness :
  exists lines s,
    capture quiet_host (capture_state coded_state VUndefined) = Some lines /\
    toString coded_root = Some s /\
    stackLines coded_root = s :: drop 3 lines /\
    own (this_fields coded_root) !! "stack" = Some (VStr (join_lines (s :: drop 3 lines))).
Proof.
  apply (rootFactory_header_and_frames quiet_host blank_root 1%positive VUndefined
           coded_state coded_root
           (State (capture_heap (heap coded_state) VUndefined) (Finite 10))).
  vm_compute. reflexivity.
Defined.

(** X10.  When [rootFactory] returns, the code and the message read from
    the instance are the [code] and [message] of the properties when these
    are truthy, as they are and whatever their type, and [undefined] and
    the empty string when the properties have none. *)
Theorem rootFactory_keeps_truthy h this properties configuration st this' st' :
  rootFactory h this properties configuration st = Ok this' st' ->
  let props := default ∅ (heap st !! properties) in
  (forall v, props !! "code" = Some v -> truthy v = true -> get_code this' = v) /\
  (props !! "code" = None -> get_code this' = VUndefined) /\
  (forall v, props !! "message" = Some v -> truthy v = true -> get_message this' = v) /\
  (props !! "message" = None -> get_message this' = VStr "").
Proof.
  intros Hrun props.
  apply rootFactory_Ok in Hrun as (lines & s & _ & _ & -> & _).
  unfold get_code, get_message. simpl. fold props.
  unfold initial_code, initial_message, js_or.
  repeat split.
  - by intros v -> ->.
  - by intros ->.
  - by intros v -> ->.
  - by intros ->.
Qed.

Lemma rootFactory_keeps_truthy_witness :
  let props := default ∅ (heap coded_state !! 1%positive) in
  (forall v, props !! "code" = Some v -> truthy v = true -> get_code coded_root = v) /\
  (props !! "code" = None -> get_code coded_root = VUndefined) /\
  (forall v, props !! "message" = Some v -> truthy v = true -> get_message coded_root = v) /\
  (props !! "message" = None -> get_message coded_root = VStr "").
Proof.
  apply (rootFactory_keeps_truthy quiet_host blank_root 1%positive VUndefined
           coded_state coded_root
           (State (capture_heap (heap coded_state) VUndefined) (Finite 10))).
  vm_compute. reflexivity.
Defined.

(** ** Assignments to [code] and [message] (lines 178-200) *)










(** ** A construction by the default initializer, end to end (lines 31-66, 141-209) *)


(** The construction of a kind whose only initializer is the default one
    of its root: the merge, then [rootFactory] on the merged properties. *)
Lemma construct_default_run h this message configuration st root :
  List.filter has_initializer (reverse (chain this)) = [root] ->
  factory root = Fn_rootFactory ->
  chain_allocated (heap st) (chain this) ->
  allocated (heap st) message ->
  capture_total h ->
  exists lines s st',
    let merged := merged_properties (heap st) (chain this) message in
    construct_body h this message configuration st =
      Ok (Instance (chain this)
            (Fields (<["stack" := VStr (join_lines (s :: drop 3 lines))]>
                       (initial_own (own (this_fields this)) merged lines))
                    (Some (Closure (initial_code merged) (initial_message merged)
                                   (s :: drop 3 lines)))))
         st' /\
    stackTraceLimit st' = stackTraceLimit st.
Proof.
  intros Hfilter Hroot Hch Hm Hcapture.
  assert (Hne : chain this <> []).
  { intros Hnil. by rewrite Hnil in Hfilter. }
  rewrite (construct_body_root_only h this message configuration st root) by done.
  unfold bind.
  destruct (merge_properties_run (chain this) message st Hch Hm)
    as (props & hp' & -> & _ & _).
  set (st1 := State _ _).
  destruct (Hcapture (capture_state st1 configuration)) as [lines Hlines].
  destruct (rootFactory_returns h this props configuration st1 lines Hne Hlines)
    as (this' & Hrun).
  pose proof Hrun as Hok.
  apply rootFactory_Ok in Hok as (lines' & s & Hlines' & _ & Hthis & _).
  simpl in Hlines'. rewrite Hlines in Hlines'. injection Hlines' as <-.
  exists lines, s. eexists. simpl. split.
  - rewrite Hrun. f_equal. rewrite Hthis. unfold st1. simpl.
    by rewrite lookup_insert_eq.
  - done.
Qed.



(** ** An initializer that raises (lines 59-65) *)

Lemma invoke_in_order_app h pre post props configuration :
  forall this st,
    invoke_in_order h (pre ++ post) this props configuration st =
    (this1 <- invoke_in_order h pre this props configuration ;;
     invoke_in_order h post this1 props configuration) st.
Proof.
  induction pre as [|it pre IH]; intros this st; [done|].
  simpl. unfold bind.
  destruct (call_factory h (factory it) this props configuration st) as [this1 st1|];
    [|done].
  rewrite IH. done.
Qed.

(** X14.  When an initializer of the chain raises, the construction raises
    the same exception in the state the initializer left: nothing is
    caught, and the initializers nearer the leaf are not called. *)
Theorem construct_propagates h this message configuration st
    props st0 pre it post this1 st1 e st2 :
  merge_properties (chain this) message st = Ok props st0 ->
  List.filter has_initializer (reverse (chain this)) = pre ++ it :: post ->
  invoke_in_order h pre this props configuration st0 = Ok this1 st1 ->
  call_factory h (factory it) this1 props configuration st1 = Throw e st2 ->
  construct_body h this message configuration st = Throw e st2.
Proof.
  intros Hmerge Hfilter Hpre Hraise.
  unfold construct_body, bind. rewrite Hmerge.
  rewrite run_factories_in_order, firstn_all, Hfilter by done.
  rewrite invoke_in_order_app. unfold bind. rewrite Hpre. simpl.
  unfold bind. by rewrite Hraise.
Qed.

(** A root that returns, a kind below it whose initializer raises, and a
    leaf whose initializer is then never called. *)
Lemma construct_propagates_witness :
  exists st2,
    construct_body raising_host
      (Instance [Item (Fn_user 1) "Leaf" Error 1%positive;
                 Item (Fn_user 7) "Mid" Error 1%positive;
                 Item (Fn_user 0) "Plain" Error 1%positive] (Fields ∅ None))
      VUndefined VUndefined sample_state =
    Throw (UserThrow (VStr "nope")) st2.
Proof.
  eexists.
  eapply (construct_propagates raising_host
            (Instance [Item (Fn_user 1) "Leaf" Error 1%positive;
                       Item (Fn_user 7) "Mid" Error 1%positive;
                       Item (Fn_user 0) "Plain" Error 1%positive] (Fields ∅ None))
            VUndefined VUndefined sample_state _ _
            [Item (Fn_user 0) "Plain" Error 1%positive]
            (Item (Fn_user 7) "Mid" Error 1%positive)
            [Item (Fn_user 1) "Leaf" Error 1%positive]).
  - vm_compute. reflexivity.
  - reflexivity.
  - vm_compute. reflexivity.
  - vm_compute. reflexivity.
Defined.

(** ** Loading the module (lines 3-4) *)

(** X15.  Loading the module returns in every state and on every host, and
    leaves [Err], a root kind named [CustomError] with the default
    initializer, and [Err.order] below it; where the stack capture does
    not raise, [new Err.order()] returns an instance with the code [EOARG]
    that renders as [CustomError EOARG: Arguments out of order.]. *)
Theorem module_init_order h st :
  capture_total h ->
  exists root leaf st' this st'',
    module_init h st = Ok (Construct root [], Construct leaf [root]) st' /\
    name root = "CustomError" /\ parent root = Error /\
    factory root = Fn_rootFactory /\
    name leaf = "CustomError" /\ parent leaf = Construct root [] /\
    factory leaf = Fn_noop /\
    new_construct h leaf [root] VUndefined VUndefined st' = Ok this st'' /\
    get_code this = VStr "EOARG" /\
    get_message this = VStr "Arguments out of order." /\
    toString this = Some "CustomError EOARG: Arguments out of order.".
Proof.
  intros Hcapture.
  eexists _, _, _. 
  set (l1 := fresh (dom (heap st))).
  set (hp1 := <[l1 := ∅]> (heap st)).
  set (l2 := fresh (dom hp1)).
  set (hp2 := <[l2 := {["message" := VStr "Arguments out of order.";
                        "code" := VStr "EOARG"]}]> hp1).
  set (l3 := fresh (dom hp2)).
  set (root := Item Fn_rootFactory "CustomError" Error l1).
  set (leaf := Item Fn_noop "CustomError" (Construct root []) l2).
  set (st' := State (<[l3 := ∅]> hp2) (stackTraceLimit st)).
  assert (l1 <> l2).
  { intros Heq. apply (fresh_ne hp1 l1); [|done]. unfold hp1.
    rewrite lookup_insert_eq. eauto. }
  assert (l2 <> l3).
  { intros Heq. apply (fresh_ne hp2 l2); [|done]. unfold hp2.
    rewrite lookup_insert_eq. eauto. }
  assert (l1 <> l3).
  { intros Heq. apply (fresh_ne hp2 l1); [|done]. unfold hp2, hp1.
    rewrite lookup_insert_ne, lookup_insert_eq by done. eauto. }
  assert (Hl1 : <[l3 := ∅]> hp2 !! l1 = Some ∅).
  { unfold hp2, hp1. by rewrite !lookup_insert_ne, lookup_insert_eq by done. }
  assert (Hl2 : <[l3 := ∅]> hp2 !! l2 =
                Some {["message" := VStr "Arguments out of order.";
                       "code" := VStr "EOARG"]}).
  { unfold hp2. by rewrite lookup_insert_ne, lookup_insert_eq by done. }
  destruct (construct_default_run h (Object_create leaf [root]) VUndefined VUndefined st'
              root) as (lines & s & st'' & Hrun & _); try done.
  { constructor; [simpl; rewrite Hl2; eauto|].
    constructor; [simpl; rewrite Hl1; eauto|].
    constructor. }
  simpl in Hrun.
  assert (Hcode : merged_properties (heap st') [leaf; root] VUndefined !! "code" =
                  Some (VStr "EOARG")).
  { rewrite lookup_merged_properties. simpl. by rewrite Hl2, Hl1. }
  assert (Hmessage : merged_properties (heap st') [leaf; root] VUndefined !! "message" =
                     Some (VStr "Arguments out of order.")).
  { rewrite lookup_merged_properties. simpl. by rewrite Hl2, Hl1. }
  eexists _, st''.
  split; [reflexivity|].
  do 6 (split; [reflexivity|]).
  split; [exact Hrun|].
  assert (Hc : initial_code (merged_properties (heap st') [leaf; root] VUndefined) =
               VStr "EOARG") by (unfold initial_code; by rewrite Hcode).
  assert (Hm : initial_message (merged_properties (heap st') [leaf; root] VUndefined) =
               VStr "Arguments out of order.")
    by (unfold initial_message; by rewrite Hmessage).
  split; [exact Hc|]. split; [exact Hm|].
  rewrite toString_render. unfold get_code, get_message. simpl.
  simpl in Hc, Hm. rewrite Hc, Hm. reflexivity.
Qed.

Lemma module_init_order_witness :
  exists root leaf st' this st'',
    module_init quiet_host empty_state = Ok (Construct root [], Construct leaf [root]) st' /\
    name root = "CustomError" /\ parent root = Error /\
    factory root = Fn_rootFactory /\
    name leaf = "CustomError" /\ parent leaf = Construct root [] /\
    factory leaf = Fn_noop /\
    new_construct quiet_host leaf [root] VUndefined VUndefined st' = Ok this st'' /\
    get_code this = VStr "EOARG" /\
    get_message this = VStr "Arguments out of order." /\
    toString this = Some "CustomError EOARG: Arguments out of order.".
Proof.
  apply (module_init_order quiet_host empty_state).
  apply quiet_host_capture_total.
Defined.

(** ** The name of an instance (lines 73, 86-91) *)


